(** * PyVSCode IDE: the code-intelligence core of [main.py]

    A shallow embedding of the parts of [main.py] that carry the
    algorithms of the editor:

    - [CodeAnalyzer] ([analyze_code], [_count_comments],
      [_count_docstrings], [_calculate_complexity]);
    - [VSCodeLikeIDE.show_educational_hints];
    - the completion popup ([show_completions], [_navigate_completions],
      [insert_completion]).

    Conventions.  A Python [str] is a Rocq [string]; a character is a
    code point below 256, classified as Python classifies it.  The fixed
    hint texts contain an emoji, written here in UTF-8; they are only
    ever compared for equality.  Python integers are [Z], positions in
    the text widget are [nat].  What belongs to a library ([ast.parse],
    [inspect.cleandoc], [jedi.Script.complete]) is a [Variable] of the
    section. *)

From Stdlib Require Import List String Ascii Bool Arith ZArith Lia.
From Stdlib Require Import Permutation.
Import ListNotations.

Local Open Scope string_scope.
Local Open Scope Z_scope.

(* ================================================================= *)
(** ** Characters and strings, as Python's [str] methods see them *)

Definition nl : ascii := "010"%char.
Definition cr : ascii := "013"%char.

Definition ord (c : ascii) : nat := nat_of_ascii c.

Definition between (lo hi : nat) (c : ascii) : bool :=
  (Nat.leb lo (ord c) && Nat.leb (ord c) hi)%bool.

(** [str.isalnum] on one character: letters and digits of ASCII, and
    the letters and numeric characters of the Latin-1 supplement. *)
Definition isalnum (c : ascii) : bool :=
  (between 48 57 c || between 65 90 c || between 97 122 c
   || Nat.eqb (ord c) 170 || between 178 179 c || Nat.eqb (ord c) 181
   || between 185 186 c || between 188 190 c
   || between 192 214 c || between 216 246 c || between 248 255 c)%bool.

(** [str.isspace] on one character; [str.strip] removes these. *)
Definition isspace (c : ascii) : bool :=
  (between 9 13 c || between 28 32 c
   || Nat.eqb (ord c) 133 || Nat.eqb (ord c) 160)%bool.

(** The line boundaries of [str.splitlines]. *)
Definition is_linebreak (c : ascii) : bool :=
  (between 10 13 c || between 28 30 c || Nat.eqb (ord c) 133)%bool.

Fixpoint lstrip (s : string) : string :=
  match s with
  | String c rest => if isspace c then lstrip rest else s
  | EmptyString => EmptyString
  end.

Fixpoint string_rev_onto (s acc : string) : string :=
  match s with
  | String c rest => string_rev_onto rest (String c acc)
  | EmptyString => acc
  end.

Definition string_rev (s : string) : string := string_rev_onto s EmptyString.

Definition rstrip (s : string) : string := string_rev (lstrip (string_rev s)).

(** [s.strip()] *)
Definition strip (s : string) : string := rstrip (lstrip s).

(** [s.startswith(p)] *)
Definition startswith (s p : string) : bool := String.prefix p s.

(** [sub in s] *)
Fixpoint contains (sub s : string) : bool :=
  match s with
  | String _ rest => (String.prefix sub s || contains sub rest)%bool
  | EmptyString => String.prefix sub EmptyString
  end.

(** [s[:n]] and [s[n:]] for [n >= 0]. *)
Fixpoint take (n : nat) (s : string) : string :=
  match n, s with
  | S n', String c rest => String c (take n' rest)
  | _, _ => EmptyString
  end.

Fixpoint drop (n : nat) (s : string) : string :=
  match n, s with
  | S n', String _ rest => drop n' rest
  | _, _ => s
  end.

(** [s.split("\n")]: the pieces between newline characters; never empty. *)
Fixpoint split_nl_from (cur s : string) : list string :=
  match s with
  | String c rest =>
      if Ascii.eqb c nl then cur :: split_nl_from EmptyString rest
      else split_nl_from (cur ++ String c EmptyString) rest
  | EmptyString => [cur]
  end.

Definition split_nl (s : string) : list string := split_nl_from EmptyString s.

(** [s.splitlines()]: a line boundary ends a line, ["\r\n"] is one
    boundary, and what follows the last boundary is a line only when it
    is not empty. *)
Fixpoint splitlines_from (cur s : string) : list string :=
  match s with
  | String c rest =>
      if is_linebreak c then
        match rest with
        | String c' rest' =>
            if (Ascii.eqb c cr && Ascii.eqb c' nl)%bool
            then cur :: splitlines_from EmptyString rest'
            else cur :: splitlines_from EmptyString rest
        | EmptyString => cur :: splitlines_from EmptyString rest
        end
      else splitlines_from (cur ++ String c EmptyString) rest
  | EmptyString => match cur with EmptyString => [] | _ => [cur] end
  end.

Definition splitlines (s : string) : list string :=
  splitlines_from EmptyString s.

(** [sep.join(parts)] *)
Fixpoint join (sep : string) (parts : list string) : string :=
  match parts with
  | [] => EmptyString
  | [p] => p
  | p :: rest => p ++ sep ++ join sep rest
  end.

(** Text of several lines, written line by line. *)
Definition text_of_lines (ls : list string) : string :=
  join (String nl EmptyString) ls.

(* ================================================================= *)
(** ** Syntax trees, as the [ast] module presents them *)

Local Open Scope list_scope.

#[local] Set Warnings "-register-all".

(** The value of a [Constant]: a [str], or anything else (a number,
    [bytes], [None], a boolean, [Ellipsis]). *)
Inductive constant : Type :=
| CStr (s : string)
| COther.

(** The node classes the program tests with [isinstance], and the rest. *)
Inductive ast_class : Type :=
| Module
| FunctionDef
| AsyncFunctionDef
| ClassDef
| If
| While
| For
| Try
| ExceptHandler
| With
| Assert
| BoolOp
| Import
| ImportFrom
| Expr
| Constant (value : constant)
| OtherNode (name : string).

(** A node is its class and its fields in the order of [_fields]; a
    field holds the nodes found in it, in order: one node for a node
    field, the items for a list field, none for an absent optional node.
    Fields that hold no node at all may be left out: nothing here reads
    them. *)
Inductive node : Type :=
| Node (cls : ast_class) (fields : list (string * list node)).

Definition node_class (n : node) : ast_class :=
  match n with Node cls _ => cls end.

Definition node_fields (n : node) : list (string * list node) :=
  match n with Node _ fields => fields end.

(** [getattr(node, name)] for a field that holds nodes. *)
Fixpoint lookup_field (name : string) (fields : list (string * list node))
  : list node :=
  match fields with
  | (k, v) :: rest => if String.eqb k name then v else lookup_field name rest
  | [] => []
  end.

Definition get_field (name : string) (n : node) : list node :=
  lookup_field name (node_fields n).

(** [ast.iter_child_nodes] *)
Definition iter_child_nodes (n : node) : list node :=
  flat_map snd (node_fields n).

Fixpoint node_size (n : node) : nat :=
  match n with
  | Node _ fields =>
      S (list_sum (map (fun f => list_sum (map node_size (snd f))) fields))
  end.

(** [ast.walk]: the queue [todo] starts with the root; each step pops
    the leftmost node, appends its children on the right and yields it.
    The loop runs once per node of the tree, so the size of the tree is
    fuel enough (see [walk_visits_every_node]). *)
Fixpoint walk_queue (fuel : nat) (todo : list node) : list node :=
  match fuel, todo with
  | S fuel', n :: rest => n :: walk_queue fuel' (rest ++ iter_child_nodes n)
  | _, _ => []
  end.

Definition walk (tree : node) : list node :=
  walk_queue (node_size tree) [tree].

(** The nodes of a tree in document order: a node, then the nodes of its
    fields from left to right. *)
Fixpoint preorder (n : node) : list node :=
  match n with
  | Node _ fields =>
      n :: flat_map (fun f => flat_map preorder (snd f)) fields
  end.

Definition is_FunctionDef (n : node) : bool :=
  match node_class n with FunctionDef => true | _ => false end.

Definition is_ClassDef (n : node) : bool :=
  match node_class n with ClassDef => true | _ => false end.

Definition is_Module (n : node) : bool :=
  match node_class n with Module => true | _ => false end.

Definition is_import (n : node) : bool :=
  match node_class n with Import | ImportFrom => true | _ => false end.

Definition is_BoolOp (n : node) : bool :=
  match node_class n with BoolOp => true | _ => false end.

(** [isinstance(node, (ast.If, ast.While, ast.For, ast.Try,
    ast.ExceptHandler, ast.With, ast.Assert))] *)
Definition is_branching (n : node) : bool :=
  match node_class n with
  | If | While | For | Try | ExceptHandler | With | Assert => true
  | _ => false
  end.

(** What [ast.parse] guarantees of its result and the rest of the file
    relies on: [Module] is the class of the root only, and a [BoolOp]
    has at least two operands. *)
Fixpoint statement_shaped (n : node) : bool :=
  match n with
  | Node cls fields =>
      (match cls with
       | Module => false
       | BoolOp => Nat.leb 2 (List.length (lookup_field "values" fields))
       | _ => true
       end
       && forallb (fun f => forallb statement_shaped (snd f)) fields)%bool
  end.

Definition module_shaped (tree : node) : bool :=
  match tree with
  | Node Module fields =>
      forallb (fun f => forallb statement_shaped (snd f)) fields
  | _ => false
  end.

(* ================================================================= *)
(** ** Exceptions *)

(** The exception classes that occur; all derive from [Exception]. *)
Inductive exn : Type :=
| SyntaxError
| ValueError
| RecursionError
| TclError
| IndexError
| AttributeError
| OtherException (name : string).

(** A call returns a value or raises. *)
Inductive outcome (A : Type) : Type :=
| Returned (a : A)
| Raised (e : exn).

Arguments Returned {A} a.
Arguments Raised {A} e.

Definition bind {A B : Type} (m : outcome A) (k : A -> outcome B) : outcome B :=
  match m with
  | Returned a => k a
  | Raised e => Raised e
  end.

Notation "x <- m ;; k" := (bind m (fun x => k))
  (at level 61, m at next level, right associativity).

(** [try: body / except Exception: handler] *)
Definition try_except {A : Type} (body : outcome A) (handler : exn -> outcome A)
  : outcome A :=
  match body with
  | Returned a => Returned a
  | Raised e => handler e
  end.

(** A [dict] with [str] keys and [int] values, in insertion order. *)
Definition dict : Type := list (string * Z).

Fixpoint dict_get (d : dict) (key : string) : option Z :=
  match d with
  | (k, v) :: rest => if String.eqb k key then Some v else dict_get rest key
  | [] => None
  end.

(** [d.get(key, default)] *)
Definition dict_get_default (d : dict) (key : string) (default : Z) : Z :=
  match dict_get d key with
  | Some v => v
  | None => default
  end.

(** Truth value of a [str], and of [None]. *)
Definition truthy (o : option string) : bool :=
  match o with
  | Some (String _ _) => true
  | _ => false
  end.

(** [l.append(x)] *)
Definition append {A : Type} (l : list A) (x : A) : list A := (l ++ [x])%list.

Definition count {A : Type} (p : A -> bool) (l : list A) : Z :=
  Z.of_nat (List.length (filter p l)).

(* ================================================================= *)
(** ** [class CodeAnalyzer] *)

Section CodeIntelligence.

(** [ast.parse]: the tree, or the exception raised ([SyntaxError] for a
    text that is not valid Python). *)
Variable ast_parse : string -> outcome node.

(** [inspect.cleandoc] *)
Variable cleandoc : string -> string.

(** [_count_comments] *)
Definition _count_comments (code_text : string) : Z :=
  count (fun line => startswith (strip line) "#") (splitlines code_text).

(** [ast.get_docstring(node)] on a node that may have one. *)
Definition get_docstring (n : node) : option string :=
  match get_field "body" n with
  | first :: _ =>
      match node_class first with
      | Expr =>
          match get_field "value" first with
          | Node (Constant (CStr text)) _ :: _ => Some (cleandoc text)
          | _ => None
          end
      | _ => None
      end
  | [] => None
  end.

(** [_count_docstrings] *)
Definition _count_docstrings (tree : node) : Z :=
  fold_left
    (fun count node =>
       if (is_FunctionDef node || is_ClassDef node || is_Module node)%bool
       then if truthy (get_docstring node) then count + 1 else count
       else count)
    (walk tree) 0.

(** [_calculate_complexity] *)
Definition _calculate_complexity (tree : node) : Z :=
  fold_left
    (fun complexity node =>
       if is_branching node then complexity + 1
       else if is_BoolOp node
            then complexity + (Z.of_nat (List.length (get_field "values" node)) - 1)
            else complexity)
    (walk tree) 0.

(** [analyze_code] *)
Definition analyze_code (code_text : string) : outcome dict :=
  try_except
    (tree <- ast_parse code_text ;;
     Returned
       [ ("loc", Z.of_nat (List.length (splitlines code_text)));
         ("functions", count is_FunctionDef (walk tree));
         ("classes", count is_ClassDef (walk tree));
         ("imports", count is_import (walk tree));
         ("comments", _count_comments code_text);
         ("docstrings", _count_docstrings tree);
         ("complexity", _calculate_complexity tree) ])
    (fun _ => Returned []).

(* ================================================================= *)
(** ** [show_educational_hints] *)

Definition tip (title first second third : string) : string :=
  text_of_lines [title; first; second; third].

Definition FUNCTION_TIPS : string :=
  tip "🎓 Function Tips:"
      "- Add a docstring to describe the function"
      "- Consider adding type hints"
      "- Add parameter descriptions".

Definition CLASS_TIPS : string :=
  tip "🎓 Class Tips:"
      "- Add a class docstring"
      "- Consider inheritance relationships"
      "- Add proper initialization".

Definition LOOP_TIPS : string :=
  tip "🎓 Loop Tips:"
      "- Consider loop efficiency"
      "- Add a break condition"
      "- Handle edge cases".

Definition EXCEPTION_TIPS : string :=
  tip "🎓 Exception Tips:"
      "- Catch specific exceptions"
      "- Add proper error messages"
      "- Consider cleanup in finally".

Definition IMPORT_TIPS : string :=
  tip "🎓 Import Tips:"
      "- Group related imports"
      "- Consider using specific imports"
      "- Check for unused imports".

Definition VARIABLE_TIPS : string :=
  tip "🎓 Variable Tips:"
      "- Use descriptive names"
      "- Consider type hints"
      "- Initialize properly".

Definition CONDITION_TIPS : string :=
  tip "🎓 Condition Tips:"
      "- Check edge cases"
      "- Consider else cases"
      "- Simplify complex conditions".

Definition FUNCTION_CALL_TIPS : string :=
  tip "🎓 Function Call Tips:"
      "- Check parameter types"
      "- Handle return values"
      "- Consider error cases".

Definition COMPLEXITY_TIPS : string :=
  tip "🎓 Complexity Tips:"
      "- Consider breaking down large functions"
      "- Extract reusable components"
      "- Add more documentation".

Definition BEST_PRACTICES : string :=
  tip "🎓 Best Practices:"
      "- Follow PEP 8 style guide"
      "- Write clear comments"
      "- Use meaningful names".

(** The [if]/[elif] chain on the line under the caret; [hints] is the
    list so far. *)
Definition line_shape (hints : list string) (line : string) : list string :=
  if startswith (strip line) "def " then append hints FUNCTION_TIPS
  else if startswith (strip line) "class " then append hints CLASS_TIPS
  else if existsb (fun x => contains x line) ["for "; "while "]
       then append hints LOOP_TIPS
  else if contains "try" line then append hints EXCEPTION_TIPS
  else if contains "import " line then append hints IMPORT_TIPS
  else if (contains "=" line && negb (contains "==" line))%bool
       then append hints VARIABLE_TIPS
  else if contains "if " line then append hints CONDITION_TIPS
  else if (contains "(" line && negb (contains "def " line))%bool
       then append hints FUNCTION_CALL_TIPS
  else hints.

(** The loop over [ast.walk(tree)] that adds the complexity hints. *)
Definition complexity_hints (hints : list string) (tree : node) : list string :=
  fold_left
    (fun hints node =>
       if is_FunctionDef node
       then if 20 <? Z.of_nat (List.length (get_field "body" node))
            then append hints COMPLEXITY_TIPS
            else hints
       else hints)
    (walk tree) hints.

(** The list [hints] when [show_educational_hints] reaches "Show hints",
    for the text [code] of the editor and the [line] under the caret. *)
Definition hints_for (code line : string) : list string :=
  let hints := [] in
  match ast_parse code with
  | Returned tree =>
      let hints := line_shape hints line in
      let hints := complexity_hints hints tree in
      append hints BEST_PRACTICES
  | Raised _ => hints
  end.

(* ================================================================= *)
(** ** The text widget *)

(** A Tk text index ["line.column"]: lines count from 1, columns from 0. *)
Definition index : Type := (nat * nat)%type.

Definition index_lt (a b : index) : bool :=
  (Nat.ltb (fst a) (fst b)
   || (Nat.eqb (fst a) (fst b) && Nat.ltb (snd a) (snd b)))%bool.

Definition index_le (a b : index) : bool := negb (index_lt b a).

(** The editor: its lines (without the newlines between them) and the
    [INSERT] mark, the caret. *)
Record TextWidget : Type := {
  tw_lines : list string;
  tw_insert : index
}.

Definition line_at (lines : list string) (l : nat) : string :=
  nth (l - 1)%nat lines EmptyString.

(** [editor.get("1.0", tk.END)]: the whole text and Tk's final newline. *)
Definition get_all (w : TextWidget) : string :=
  (text_of_lines (tw_lines w) ++ String nl EmptyString)%string.

(** [editor.get("l.0", "l.end")] *)
Definition get_line (w : TextWidget) (l : nat) : string :=
  line_at (tw_lines w) l.

(** [editor.get("l.0", "l.c")] *)
Definition get_line_upto (w : TextWidget) (i : index) : string :=
  take (snd i) (line_at (tw_lines w) (fst i)).

(** [editor.delete(i1, i2)]: the characters from [i1] up to [i2] go; a
    mark inside the range lands on [i1], a mark after it moves back. *)
Definition text_delete (w : TextWidget) (i1 i2 : index) : TextWidget :=
  if index_lt i1 i2 then
    let lines := tw_lines w in
    let merged :=
      (take (snd i1) (line_at lines (fst i1))
       ++ drop (snd i2) (line_at lines (fst i2)))%string in
    let m := tw_insert w in
    {| tw_lines :=
         (firstn (fst i1 - 1) lines ++ merged :: skipn (fst i2) lines)%list;
       tw_insert :=
         if index_le m i1 then m
         else if index_le m i2 then i1
         else if Nat.eqb (fst m) (fst i2)
              then (fst i1, snd i1 + (snd m - snd i2))%nat
              else (fst m - (fst i2 - fst i1), snd m)%nat |}
  else w.

(** [editor.insert(i, text)]: [text] goes in before the character at
    [i]; the caret has right gravity, so a caret at [i] ends up after
    the inserted text. *)
Definition text_insert (w : TextWidget) (i : index) (text : string)
  : TextWidget :=
  let lines := tw_lines w in
  let old := line_at lines (fst i) in
  let pieces := split_nl text in
  let newlines := (List.length pieces - 1)%nat in
  let m := tw_insert w in
  {| tw_lines :=
       (firstn (fst i - 1) lines
        ++ split_nl (take (snd i) old ++ text ++ drop (snd i) old)%string
        ++ skipn (fst i) lines)%list;
     tw_insert :=
       if index_lt m i then m
       else if Nat.eqb (fst m) (fst i)
            then match newlines with
                 | O => (fst m, snd m + String.length text)%nat
                 | _ => (fst m + newlines,
                         String.length (last pieces EmptyString)
                         + (snd m - snd i))%nat
                 end
            else (fst m + newlines, snd m)%nat |}.

(** A caret that Tk can hold: on an existing line, not past its end. *)
Definition valid_caret (w : TextWidget) : Prop :=
  (1 <= fst (tw_insert w) <= List.length (tw_lines w))%nat
  /\ (snd (tw_insert w)
      <= String.length (line_at (tw_lines w) (fst (tw_insert w))))%nat.

(* ================================================================= *)
(** ** The completion popup *)

(** What [jedi] reports for one completion: [name], [type] and
    [complete].  In [jedi], [complete] is the rest of the word, the name
    without the characters already typed before the caret; it is the
    text the program inserts. *)
Record Completion : Type := {
  comp_name : string;
  comp_type : string;
  comp_complete : string
}.

(** [jedi.Script(code, path=...).complete(line, column)] *)
Variable jedi_complete : string -> nat -> nat -> outcome (list Completion).

(** The popup: the [Toplevel] window and the [Listbox] in it.  The list
    box is a child of the window, so destroying the window destroys
    both; the program keeps a reference to each. *)
Record Popup : Type := {
  destroyed : bool;
  items : list string;
  selection : list Z
}.

(** The attributes of [VSCodeLikeIDE] that matter here.  [widgets] holds
    the popups ever created; [completion_window] and [completion_list]
    refer into it, [None] standing for the attribute being [None]. *)
Record IDE : Type := {
  current_editor : option TextWidget;
  educational_hints : bool;
  widgets : list Popup;
  completion_window : option nat;
  completion_list : option nat;
  current_completions : list Completion
}.

Definition set_current_editor (ide : IDE) (ed : TextWidget) : IDE :=
  {| current_editor := Some ed;
     educational_hints := educational_hints ide;
     widgets := widgets ide;
     completion_window := completion_window ide;
     completion_list := completion_list ide;
     current_completions := current_completions ide |}.

Definition set_widgets (ide : IDE) (ws : list Popup) : IDE :=
  {| current_editor := current_editor ide;
     educational_hints := educational_hints ide;
     widgets := ws;
     completion_window := completion_window ide;
     completion_list := completion_list ide;
     current_completions := current_completions ide |}.

Definition set_completion_window (ide : IDE) (w : option nat) : IDE :=
  {| current_editor := current_editor ide;
     educational_hints := educational_hints ide;
     widgets := widgets ide;
     completion_window := w;
     completion_list := completion_list ide;
     current_completions := current_completions ide |}.

Definition set_completion_list (ide : IDE) (w : option nat) : IDE :=
  {| current_editor := current_editor ide;
     educational_hints := educational_hints ide;
     widgets := widgets ide;
     completion_window := completion_window ide;
     completion_list := w;
     current_completions := current_completions ide |}.

Definition set_current_completions (ide : IDE) (cs : list Completion) : IDE :=
  {| current_editor := current_editor ide;
     educational_hints := educational_hints ide;
     widgets := widgets ide;
     completion_window := completion_window ide;
     completion_list := completion_list ide;
     current_completions := cs |}.

Fixpoint replace_nth {A : Type} (n : nat) (x : A) (l : list A) : list A :=
  match n, l with
  | O, _ :: rest => x :: rest
  | S n', y :: rest => y :: replace_nth n' x rest
  | _, [] => []
  end.

(** A live widget behind a reference; a call on a destroyed one raises
    [TclError]. *)
Definition live (ide : IDE) (ref : nat) : outcome Popup :=
  match nth_error (widgets ide) ref with
  | Some p => if destroyed p then Raised TclError else Returned p
  | None => Raised TclError
  end.

Definition update (ide : IDE) (ref : nat) (p : Popup) : IDE :=
  set_widgets ide (replace_nth ref p (widgets ide)).

(** [window.destroy()]; destroying twice is harmless. *)
Definition destroy (ide : IDE) (ref : nat) : IDE :=
  match nth_error (widgets ide) ref with
  | Some p =>
      update ide ref
        {| destroyed := true; items := items p; selection := selection p |}
  | None => ide
  end.

(** [listbox.curselection()]: the selected indices, ascending. *)
Definition curselection (ide : IDE) (ref : nat) : outcome (list Z) :=
  p <- live ide ref ;; Returned (selection p).

(** [listbox.size()] *)
Definition size (ide : IDE) (ref : nat) : outcome Z :=
  p <- live ide ref ;; Returned (Z.of_nat (List.length (items p))).

Fixpoint insert_sorted (i : Z) (l : list Z) : list Z :=
  match l with
  | j :: rest =>
      if i <? j then i :: l
      else if i =? j then l
      else j :: insert_sorted i rest
  | [] => [i]
  end.

(** The list box methods, on the widget itself. *)
Definition popup_select_set (p : Popup) (i : Z) : Popup :=
  if ((0 <=? i) && (i <? Z.of_nat (List.length (items p))))%bool
  then {| destroyed := destroyed p; items := items p;
          selection := insert_sorted i (selection p) |}
  else p.

Definition popup_select_clear_all (p : Popup) : Popup :=
  {| destroyed := destroyed p; items := items p; selection := [] |}.

Definition popup_insert_end (p : Popup) (text : string) : Popup :=
  {| destroyed := destroyed p; items := append (items p) text;
     selection := selection p |}.

(** [listbox.select_set(i)]: an index outside the list selects nothing. *)
Definition select_set (ide : IDE) (ref : nat) (i : Z) : outcome IDE :=
  p <- live ide ref ;; Returned (update ide ref (popup_select_set p i)).

(** [listbox.select_clear(0, tk.END)] *)
Definition select_clear_all (ide : IDE) (ref : nat) : outcome IDE :=
  p <- live ide ref ;; Returned (update ide ref (popup_select_clear_all p)).

(** [seq[i]] for a Python list. *)
Definition list_index {A : Type} (l : list A) (i : Z) : outcome A :=
  let n := Z.of_nat (List.length l) in
  let j := if i <? 0 then i + n else i in
  if ((0 <=? j) && (j <? n))%bool
  then match nth_error l (Z.to_nat j) with
       | Some x => Returned x
       | None => Raised IndexError
       end
  else Raised IndexError.

(** [_get_completion_icon] *)
Definition _get_completion_icon (completion_type : string) : string :=
  if String.eqb completion_type "module" then "📦"
  else if String.eqb completion_type "class" then "🔷"
  else if String.eqb completion_type "function" then "🔸"
  else if String.eqb completion_type "instance" then "📎"
  else if String.eqb completion_type "keyword" then "🔑"
  else if String.eqb completion_type "statement" then "📄"
  else if String.eqb completion_type "import" then "📥"
  else "•".

(** The text of a list entry: [f"{icon} {comp.name} - {comp.type}"]. *)
Definition entry_text (comp : Completion) : string :=
  (_get_completion_icon (comp_type comp) ++ " " ++ comp_name comp
   ++ " - " ++ comp_type comp)%string.

(** The [except] branch of [show_completions]. *)
Definition drop_completion_window (ide : IDE) : IDE :=
  match completion_window ide with
  | Some w => set_completion_window (destroy ide w) None
  | None => ide
  end.

(** [show_completions]; it returns ["break"] on every path, so only the
    state after the call is kept.  The placement of the window on the
    screen is left out. *)
Definition show_completions (ide : IDE) : IDE :=
  match current_editor ide with
  | None => ide
  | Some editor =>
      let index := tw_insert editor in
      let line_no := fst index in
      let column := snd index in
      let code := get_all editor in
      match jedi_complete code line_no column with
      | Raised _ => drop_completion_window ide
      | Returned [] => ide
      | Returned completions =>
          let ide :=
            match completion_window ide with
            | Some w => destroy ide w
            | None => ide
            end in
          let ref := List.length (widgets ide) in
          let listbox := {| destroyed := false; items := []; selection := [] |} in
          let listbox :=
            fold_left (fun lb comp => popup_insert_end lb (entry_text comp))
                      completions listbox in
          let listbox :=
            if 0 <? Z.of_nat (List.length (items listbox))
            then popup_select_set listbox 0
            else listbox in
          let ide := set_widgets ide (widgets ide ++ [listbox])%list in
          let ide := set_completion_window ide (Some ref) in
          let ide := set_completion_list ide (Some ref) in
          set_current_completions ide completions
      end
  end.

(** The binding of [<Escape>] on the list: [completion_window.destroy()]. *)
Definition on_escape (ide : IDE) : outcome IDE :=
  match completion_window ide with
  | Some w => Returned (destroy ide w)
  | None => Raised AttributeError
  end.

(** [_navigate_completions], for an event with the given [keysym]. *)
Definition _navigate_completions (keysym : string) (ide : IDE) : outcome IDE :=
  match completion_list ide with
  | None => Returned ide
  | Some listbox =>
      current <- curselection ide listbox ;;
      size <- size ide listbox ;;
      match current with
      | [] => select_set ide listbox 0
      | current :: _ =>
          let new :=
            if String.eqb keysym "Up" then Some (Z.max 0 (current - 1))
            else if String.eqb keysym "Down"
                 then Some (Z.min (size - 1) (current + 1))
            else if String.eqb keysym "Prior" then Some (Z.max 0 (current - 5))
            else if String.eqb keysym "Next"
                 then Some (Z.min (size - 1) (current + 5))
            else None in
          match new with
          | None => Returned ide
          | Some new =>
              ide <- select_clear_all ide listbox ;;
              select_set ide listbox new
          end
      end
  end.

(** The loop of [insert_completion] that finds the start of the word:
    [i] runs over [indices], from [len(line) - 1] down to 0. *)
Fixpoint scan_word_start (line : string) (indices : list nat) (word_start : nat)
  : nat :=
  match indices with
  | i :: rest =>
      match String.get i line with
      | Some ch =>
          if (negb (isalnum ch) && negb (contains (String ch EmptyString) "_"))%bool
          then word_start
          else scan_word_start line rest i
      | None => word_start
      end
  | [] => word_start
  end.

Definition find_word_start (line : string) : nat :=
  scan_word_start line (rev (seq 0 (String.length line))) (String.length line).

(** [insert_completion] *)
Definition insert_completion (ide : IDE) : outcome IDE :=
  match completion_list ide with
  | None => Returned ide
  | Some listbox =>
      selection <- curselection ide listbox ;;
      match selection with
      | [] => Returned ide
      | first :: _ =>
          completion <- list_index (current_completions ide) first ;;
          match current_editor ide with
          | None => Raised AttributeError
          | Some editor =>
              let cursor_pos := tw_insert editor in
              let line := get_line_upto editor cursor_pos in
              let word_start := find_word_start line in
              let start_pos := (fst cursor_pos, word_start) in
              let editor := text_delete editor start_pos cursor_pos in
              let editor :=
                text_insert editor start_pos (comp_complete completion) in
              let ide := set_current_editor ide editor in
              Returned
                match completion_window ide with
                | Some w => set_completion_window (destroy ide w) None
                | None => ide
                end
          end
      end
  end.

(** [show_educational_hints], up to the tooltip: the hints it shows. *)
Definition show_educational_hints (ide : IDE) : list string :=
  match current_editor ide with
  | Some editor =>
      if educational_hints ide
      then hints_for (get_all editor) (get_line editor (fst (tw_insert editor)))
      else []
  | None => []
  end.

(* ================================================================= *)
(** ** [update_metrics] and [update_metrics_visualization] *)

(** [max(values)] for a list of integers. *)
Definition py_max (values : list Z) : outcome Z :=
  match values with
  | [] => Raised ValueError
  | v :: rest => Returned (fold_left Z.max rest v)
  end.

(** A bar of the chart, for the item number [i] of the metrics: the
    rectangle spans the columns [30 + i * 50] to [70 + i * 50], the
    label is [key[:4]], and the height is
    [(bar_value / bar_scale) * 150], which the program computes in
    floating point and this record keeps as the two integers. *)
Record Bar : Type := {
  bar_left : Z;
  bar_right : Z;
  bar_value : Z;
  bar_scale : Z;
  bar_label : string
}.

(** The loop of [update_metrics_visualization] from item [i] on; the
    division [value / max_value] raises when [max_value] is zero. *)
Fixpoint draw_bars (i : Z) (items : dict) (max_value : Z) : outcome (list Bar) :=
  match items with
  | (key, value) :: rest =>
      if max_value =? 0 then Raised (OtherException "ZeroDivisionError")
      else
        bars <- draw_bars (i + 1) rest max_value ;;
        Returned
          ({| bar_left := 30 + i * 50; bar_right := 70 + i * 50;
              bar_value := value; bar_scale := max_value;
              bar_label := take 4 key |} :: bars)
  | [] => Returned []
  end.

(** [update_metrics_visualization]: the bars drawn, or the exception. *)
Definition update_metrics_visualization (metrics : dict) : outcome (list Bar) :=
  max_value <- py_max (map snd metrics) ;;
  draw_bars 0 metrics max_value.

Definition HIGH_COMPLEXITY : string :=
  "High complexity detected. Consider breaking down functions.".

Definition LARGE_FILE : string :=
  "Large file size. Consider splitting into modules.".

(** What [update_metrics] puts on the panel: the rows of the metrics
    text (before [key.title()] and the formatting of the value), the
    suggestions, and the chart or the exception that ends the call. *)
Record MetricsPanel : Type := {
  panel_rows : dict;
  panel_suggestions : list string;
  panel_chart : outcome (list Bar)
}.

(** [update_metrics]; [None] when there is no editor. *)
Definition update_metrics (ide : IDE) : option (outcome MetricsPanel) :=
  match current_editor ide with
  | None => None
  | Some editor =>
      let code := get_all editor in
      Some
        (metrics <- analyze_code code ;;
         let suggestions := [] in
         let suggestions :=
           if 10 <? dict_get_default metrics "complexity" 0
           then append suggestions HIGH_COMPLEXITY
           else suggestions in
         let suggestions :=
           if 300 <? dict_get_default metrics "loc" 0
           then append suggestions LARGE_FILE
           else suggestions in
         Returned
           {| panel_rows := metrics;
              panel_suggestions := suggestions;
              panel_chart := update_metrics_visualization metrics |})
  end.

(** A line boundary of [str.splitlines] occurs in the string. *)
Fixpoint has_linebreak (s : string) : bool :=
  match s with
  | String c rest => (is_linebreak c || has_linebreak rest)%bool
  | EmptyString => false
  end.

(* ================================================================= *)
(** ** [class TerminalEmulator] *)

(** [subprocess.Popen(command, shell=True, ...).communicate()]: what
    the command wrote to its standard output and to its standard error,
    or the exception raised. *)
Variable run_process : string -> outcome (string * string).

(** [str(e)] for an exception. *)
Variable message_of : exn -> string.

(** The state of the terminal: the commands run so far, the position in
    them, the text of the input line, and what was inserted at the end
    of the output, piece by piece, each with its tag if it has one. *)
Record Terminal : Type := {
  term_history : list string;
  term_history_index : Z;
  term_input : string;
  term_output : list (string * option string)
}.

(** [execute_command] *)
Definition execute_command (t : Terminal) : Terminal :=
  let command := strip (term_input t) in
  match command with
  | EmptyString => t
  | String _ _ =>
      let history := append (term_history t) command in
      let output :=
        append (term_output t)
               (String nl ("$ " ++ command ++ String nl EmptyString)%string,
                None) in
      {| term_history := history;
         term_history_index := Z.of_nat (List.length history);
         term_input := EmptyString;
         term_output :=
           match run_process command with
           | Returned (stdout, stderr) =>
               let output :=
                 match stdout with
                 | EmptyString => output
                 | String _ _ => append output (stdout, None)
                 end in
               match stderr with
               | EmptyString => output
               | String _ _ => append output (stderr, Some "error")
               end
           | Raised e =>
               append output
                      (("Error: " ++ message_of e
                        ++ String nl EmptyString)%string,
                       Some "error")
           end |}
  end.

(** What a handler leaves: the state, and the exception that ended the
    call, if one did. *)
Definition left_by (t : Terminal) (e : option exn) : Terminal * option exn :=
  (t, e).

(** [history_up]: the index goes down and the input line is emptied
    before [history[history_index]] is read. *)
Definition history_up (t : Terminal) : Terminal * option exn :=
  if 0 <? term_history_index t then
    let index := term_history_index t - 1 in
    match list_index (term_history t) index with
    | Returned command =>
        left_by {| term_history := term_history t;
                   term_history_index := index;
                   term_input := command;
                   term_output := term_output t |} None
    | Raised e =>
        left_by {| term_history := term_history t;
                   term_history_index := index;
                   term_input := EmptyString;
                   term_output := term_output t |} (Some e)
    end
  else left_by t None.

(** [history_down] *)
Definition history_down (t : Terminal) : Terminal * option exn :=
  if term_history_index t <? Z.of_nat (List.length (term_history t)) - 1 then
    let index := term_history_index t + 1 in
    match list_index (term_history t) index with
    | Returned command =>
        left_by {| term_history := term_history t;
                   term_history_index := index;
                   term_input := command;
                   term_output := term_output t |} None
    | Raised e =>
        left_by {| term_history := term_history t;
                   term_history_index := index;
                   term_input := EmptyString;
                   term_output := term_output t |} (Some e)
    end
  else left_by t None.

(** [times] presses of [<Up>] in the input line; an exception is
    reported by Tk and the next press goes on from the state left. *)
Fixpoint history_up_times (times : nat) (t : Terminal) : Terminal :=
  match times with
  | O => t
  | S times' => history_up_times times' (fst (history_up t))
  end.

(** Every character of the string is white space. *)
Fixpoint all_space (s : string) : bool :=
  match s with
  | String c rest => (isspace c && all_space rest)%bool
  | EmptyString => true
  end.

(* ================================================================= *)
(** ** [class VSCodeThemes] *)

(** A theme: its twelve colours, in the order of the source. *)
Definition make_theme
  (background foreground toolbar_bg toolbar_fg sidebar_bg sidebar_fg
   tab_bg tab_fg selection_bg line_number line_highlight scrollbar : string)
  : list (string * string) :=
  [ ("background", background); ("foreground", foreground);
    ("toolbar_bg", toolbar_bg); ("toolbar_fg", toolbar_fg);
    ("sidebar_bg", sidebar_bg); ("sidebar_fg", sidebar_fg);
    ("tab_bg", tab_bg); ("tab_fg", tab_fg);
    ("selection_bg", selection_bg); ("line_number", line_number);
    ("line_highlight", line_highlight); ("scrollbar", scrollbar) ].

Definition themes : list (string * list (string * string)) :=
  [ ("Dark+ (default)",
     make_theme "#1E1E1E" "#D4D4D4" "#252526" "#CCCCCC" "#252526" "#CCCCCC"
                "#2D2D2D" "#FFFFFF" "#264F78" "#858585" "#282828" "#424242");
    ("Light+ (default)",
     make_theme "#FFFFFF" "#000000" "#F3F3F3" "#333333" "#F3F3F3" "#333333"
                "#ECECEC" "#333333" "#ADD6FF" "#237893" "#F5F5F5" "#C5C5C5");
    ("Monokai",
     make_theme "#272822" "#F8F8F2" "#1e1f1c" "#F8F8F2" "#1e1f1c" "#F8F8F2"
                "#34352f" "#F8F8F2" "#49483E" "#90908A" "#3E3D32" "#414339");
    ("GitHub Dark",
     make_theme "#24292E" "#E1E4E8" "#1F2428" "#E1E4E8" "#1F2428" "#E1E4E8"
                "#2F363D" "#E1E4E8" "#444D56" "#768390" "#2B3036" "#444D56") ].

(** [d.get(key)] for a dict with [str] keys. *)
Fixpoint lookup {A : Type} (d : list (string * A)) (key : string) : option A :=
  match d with
  | (k, v) :: rest => if String.eqb k key then Some v else lookup rest key
  | [] => None
  end.

(** [get_theme]: [themes.get(name, themes['Dark+ (default)'])]. *)
Definition get_theme (name : string) : list (string * string) :=
  let default :=
    match lookup themes "Dark+ (default)" with
    | Some theme => theme
    | None => []
    end in
  match lookup themes name with
  | Some theme => theme
  | None => default
  end.

(** The keys of a theme that [setup_theme] reads with [theme[key]]. *)
Definition keys_read_by_setup_theme : list string :=
  ["background"; "foreground"; "toolbar_bg"; "toolbar_fg"; "sidebar_bg";
   "sidebar_fg"; "tab_bg"; "selection_bg"].

Definition is_hex_digit (c : ascii) : bool :=
  (between 48 57 c || between 65 70 c || between 97 102 c)%bool.

(** A colour as Tk reads it: [#] and six hexadecimal digits. *)
Definition is_colour (s : string) : bool :=
  match s with
  | String "#" digits =>
      (Nat.eqb (String.length digits) 6
       && forallb is_hex_digit (list_ascii_of_string digits))%bool
  | _ => false
  end.

(* ================================================================= *)
(** ** The vocabulary of the specification *)

(** *** Metrics *)

(** The seven counts of a metrics record, under the keys of the
    program. *)
Definition metric_keys : list string :=
  ["loc"; "functions"; "classes"; "imports"; "comments"; "docstrings";
   "complexity"].

(** A metrics record in which every count is zero. *)
Definition all_counts_zero (metrics : dict) : Prop :=
  forall key, In key metric_keys -> dict_get metrics key = Some 0.

(** No line boundary in the text other than the newline character. *)
Fixpoint newline_only (s : string) : bool :=
  match s with
  | String c rest =>
      ((Ascii.eqb c nl || negb (is_linebreak c)) && newline_only rest)%bool
  | EmptyString => true
  end.

(** The text is empty or its last character is a newline. *)
Fixpoint ends_line (s : string) : bool :=
  match s with
  | String c EmptyString => Ascii.eqb c nl
  | String _ rest => ends_line rest
  | EmptyString => true
  end.

(** What one node adds to the complexity. *)
Definition decision_points (n : node) : Z :=
  if is_branching n then 1
  else if is_BoolOp n
       then Z.of_nat (List.length (get_field "values" n)) - 1
       else 0.

Definition is_function_class (cls : ast_class) : bool :=
  match cls with
  | FunctionDef | AsyncFunctionDef => true
  | _ => false
  end.

(** [add_statement stmt tree tree']: [tree'] is [tree] with the
    statement [stmt] put into the body of one function definition, and
    nothing else changed. *)
Inductive add_statement (stmt : node) : node -> node -> Prop :=
| add_here : forall cls before body1 body2 after,
    is_function_class cls = true ->
    ~ In "body" (map fst before) ->
    add_statement stmt
      (Node cls (before ++ ("body", body1 ++ body2) :: after)%list)
      (Node cls (before ++ ("body", body1 ++ stmt :: body2) :: after)%list)
| add_below : forall cls before name left child child' right after,
    add_statement stmt child child' ->
    add_statement stmt
      (Node cls (before ++ (name, left ++ child :: right) :: after)%list)
      (Node cls (before ++ (name, left ++ child' :: right) :: after)%list).

(** *** Hints *)

(** A rule: its test on the line under the caret, and its message. *)
Definition HintRule : Type := ((string -> bool) * string)%type.

(** The line-shape rules in their documented order: function
    definition, class definition, loop, exception handling, import,
    plain assignment, conditional, call. *)
Definition line_shape_rules : list HintRule :=
  [ (fun line => startswith (strip line) "def ", FUNCTION_TIPS);
    (fun line => startswith (strip line) "class ", CLASS_TIPS);
    (fun line => (contains "for " line || contains "while " line)%bool,
     LOOP_TIPS);
    (fun line => contains "try" line, EXCEPTION_TIPS);
    (fun line => contains "import " line, IMPORT_TIPS);
    (fun line => (contains "=" line && negb (contains "==" line))%bool,
     VARIABLE_TIPS);
    (fun line => contains "if " line, CONDITION_TIPS);
    (fun line => (contains "(" line && negb (contains "def " line))%bool,
     FUNCTION_CALL_TIPS) ].

(** The message of the first rule that matches, if any. *)
Definition first_match (rules : list HintRule) (line : string) : list string :=
  match find (fun rule => fst rule line) rules with
  | Some rule => [snd rule]
  | None => []
  end.

Definition is_line_shape_hint (hint : string) : bool :=
  existsb (fun rule => String.eqb (snd rule) hint) line_shape_rules.

(** The test of the program: a [FunctionDef] node, which is a function
    written with [def] and not with [async def], whose body has more
    than 20 statements. *)
Definition offending (n : node) : bool :=
  match node_class n with
  | FunctionDef => 20 <? Z.of_nat (List.length (get_field "body" n))
  | _ => false
  end.

(** One complexity hint per offending function, in document order. *)
Definition structural_hints (tree : node) : list string :=
  map (fun _ => COMPLEXITY_TIPS) (filter offending (preorder tree)).

(** In the words of the specification: a function definition, with
    [def] or with [async def], whose body has more than 20 statements. *)
Definition long_function_definition (n : node) : bool :=
  (is_function_class (node_class n)
   && (20 <? Z.of_nat (List.length (get_field "body" n))))%bool.

(** *** The completion session *)

(** The entry selected in the open list, if there is one. *)
Definition selected_index (ide : IDE) : option Z :=
  match completion_list ide with
  | Some ref =>
      match live ide ref with
      | Returned p => hd_error (selection p)
      | Raised _ => None
      end
  | None => None
  end.

(** The number of entries of the open list. *)
Definition candidate_count (ide : IDE) : option Z :=
  match completion_list ide with
  | Some ref =>
      match live ide ref with
      | Returned p => Some (Z.of_nat (List.length (items p)))
      | Raised _ => None
      end
  | None => None
  end.

(** State [Populated]: a list is open and an entry of it is selected. *)
Definition populated (ide : IDE) : bool :=
  match selected_index ide with
  | Some _ => true
  | None => false
  end.

(** The four directions, as key symbols, and the move of each. *)
Definition move_of (keysym : string) : option Z :=
  if String.eqb keysym "Up" then Some (-1)
  else if String.eqb keysym "Down" then Some 1
  else if String.eqb keysym "Prior" then Some (-5)
  else if String.eqb keysym "Next" then Some 5
  else None.

(** [i] clamped into [[0, n - 1]]. *)
Definition clamp (n i : Z) : Z := Z.max 0 (Z.min (n - 1) i).

(** [times] calls of [_navigate_completions] with the same key. *)
Fixpoint navigate_times (keysym : string) (times : nat) (ide : IDE)
  : outcome IDE :=
  match times with
  | O => Returned ide
  | S times' =>
      ide' <- _navigate_completions keysym ide ;;
      navigate_times keysym times' ide'
  end.

(** The span [accept] reports: on line [span_line], the columns from
    [startColumn] up to [endColumn], to be replaced by [insertText]. *)
Record ReplacementSpan : Type := {
  span_line : nat;
  startColumn : nat;
  endColumn : nat;
  insertText : string
}.

(** The lines after the span has been applied. *)
Definition apply_span (lines : list string) (span : ReplacementSpan)
  : list string :=
  let old := line_at lines (span_line span) in
  (firstn (span_line span - 1) lines
   ++ split_nl (take (startColumn span) old ++ insertText span
                ++ drop (endColumn span) old)%string
   ++ skipn (span_line span) lines)%list.

(** A character of an identifier: alphanumeric or underscore. *)
Definition is_word_char (ch : ascii) : bool :=
  (isalnum ch || Ascii.eqb ch "_")%bool.

(* ================================================================= *)
(** ** Example texts, trees and states *)

(** A text given by its lines, each ended by a newline. *)
Definition source_text (lines : list string) : string :=
  (text_of_lines lines ++ String nl EmptyString)%string.

Definition name_node (ctx : string) : node :=
  Node (OtherNode "Name") [("ctx", [Node (OtherNode ctx) []])].

Definition arguments_node (args : list node) : node :=
  Node (OtherNode "arguments")
    [("posonlyargs", []); ("args", args); ("kwonlyargs", []);
     ("kw_defaults", []); ("defaults", [])].

Definition function_node (args body : list node) : node :=
  Node FunctionDef
    [("args", [arguments_node args]); ("body", body); ("decorator_list", [])].

Definition module_node (body : list node) : node :=
  Node Module [("body", body); ("type_ignores", [])].

Definition pass_node : node := Node (OtherNode "Pass") [].

Definition docstring_node (text : string) : node :=
  Node Expr [("value", [Node (Constant (CStr text)) []])].

(** [x = 1] *)
Definition src_assign : string := source_text ["x = 1"].

Definition tree_assign : node :=
  module_node
    [Node (OtherNode "Assign")
       [("targets", [name_node "Store"]);
        ("value", [Node (Constant COther) []])]].

(** A function that returns its argument. *)
Definition src_return : string :=
  source_text ["def f(x):"; "    return x"].

Definition return_node : node :=
  Node (OtherNode "Return") [("value", [name_node "Load"])].

Definition tree_return : node :=
  module_node [function_node [Node (OtherNode "arg") []] [return_node]].

(** The same function with a conditional put in front of the return. *)
Definition src_guarded : string :=
  source_text ["def f(x):"; "    if x:"; "        pass"; "    return x"].

Definition if_node : node :=
  Node If [("test", [name_node "Load"]); ("body", [pass_node]); ("orelse", [])].

Definition tree_guarded : node :=
  module_node
    [function_node [Node (OtherNode "arg") []] [if_node; return_node]].

(** A module, a function and a class; the first two have a docstring. *)
Definition src_documented : string :=
  source_text ["'doc'"; "def f():"; "    'doc'"; "class C:"; "    pass"].

Definition tree_documented : node :=
  module_node
    [docstring_node "doc";
     function_node [] [docstring_node "doc"];
     Node ClassDef
       [("bases", []); ("keywords", []); ("body", [pass_node]);
        ("decorator_list", [])]].

(** A small function, and one of 21 statements. *)
Definition src_foo : string := source_text ["def foo():"; "    pass"].

Definition tree_foo : node := module_node [function_node [] [pass_node]].

Definition src_big : string :=
  source_text ("def big():" :: repeat "    pass" 21).

Definition tree_big : node :=
  module_node [function_node [] (repeat pass_node 21)].

(** The same 21 statements in a function written with [async def]. *)
Definition src_async : string :=
  source_text ("async def big():" :: repeat "    pass" 21).

Definition tree_async : node :=
  module_node
    [Node AsyncFunctionDef
       [("args", [arguments_node []]); ("body", repeat pass_node 21);
        ("decorator_list", [])]].

(** A text that is not valid Python. *)
Definition src_broken : string := source_text ["def f(:"].

(** [ast.parse] on the example texts; any other text is refused. *)
Definition parse_table : list (string * node) :=
  [ (src_assign, tree_assign); (src_return, tree_return);
    (src_guarded, tree_guarded); (src_documented, tree_documented);
    (src_foo, tree_foo); (src_big, tree_big); (src_async, tree_async) ].

Definition sample_parse (text : string) : outcome node :=
  match find (fun entry => String.eqb (fst entry) text) parse_table with
  | Some entry => Returned (snd entry)
  | None => Raised SyntaxError
  end.

(** [inspect.cleandoc] on a text of one line without tabs. *)
Definition sample_cleandoc (text : string) : string := lstrip text.

(** A completion as [jedi] builds it for a word of which
    [like_name_length] characters stand before the caret:
    [Completion.complete] is [name[like_name_length:]]. *)
Definition candidate (like_name_length : nat) (name type : string)
  : Completion :=
  {| comp_name := name;
     comp_type := type;
     comp_complete := drop like_name_length name |}.

(** What [jedi] gives for [comp] typed below the assignment of
    [compute_value]: the two builtins and the variable, by name. *)
Definition sample_candidates : list Completion :=
  [candidate 4 "compile" "function"; candidate 4 "complex" "class";
   candidate 4 "compute_value" "statement"].

(** The two lines of the example text. *)
Definition sample_lines : list string :=
  ["compute_value = 1"; "result = comp"].

(** A completion provider with the three candidates for the example
    text. *)
Definition sample_provider (code : string) (line column : nat)
  : outcome (list Completion) :=
  if String.eqb code (source_text sample_lines)
  then Returned sample_candidates
  else Returned [].

(** The editor with the example text and the caret at the end of
    [result = comp]. *)
Definition editor_start : TextWidget :=
  {| tw_lines := sample_lines; tw_insert := (2%nat, 13%nat) |}.

(** The state before any completion was asked for. *)
Definition ide_start : IDE :=
  {| current_editor := Some editor_start;
     educational_hints := true;
     widgets := [];
     completion_window := None;
     completion_list := None;
     current_completions := [] |}.

(** The state after [show_completions]: the popup is open on the three
    candidates, the first one selected. *)
Definition ide_opened : IDE :=
  {| current_editor := Some editor_start;
     educational_hints := true;
     widgets :=
       [{| destroyed := false;
           items := map entry_text sample_candidates;
           selection := [0] |}];
     completion_window := Some 0%nat;
     completion_list := Some 0%nat;
     current_completions := sample_candidates |}.

(** The editor with the small function, the caret at its end. *)
Definition editor_foo : TextWidget :=
  {| tw_lines := ["def foo():"; "    pass"]; tw_insert := (2%nat, 8%nat) |}.

Definition ide_foo : IDE :=
  {| current_editor := Some editor_foo;
     educational_hints := true;
     widgets := [];
     completion_window := None;
     completion_list := None;
     current_completions := [] |}.

(** The editor with the text that does not parse. *)
Definition editor_broken : TextWidget :=
  {| tw_lines := ["def f(:"]; tw_insert := (1%nat, 7%nat) |}.

Definition ide_broken : IDE :=
  {| current_editor := Some editor_broken;
     educational_hints := true;
     widgets := [];
     completion_window := None;
     completion_list := None;
     current_completions := [] |}.

(** A completion provider that fails. *)
Definition failing_provider (code : string) (line column : nat)
  : outcome (list Completion) :=
  Raised (OtherException "jedi").

(** A shell in which every command prints [done]. *)
Definition sample_process (command : string) : outcome (string * string) :=
  Returned ("done", EmptyString).

Definition sample_message (e : exn) : string := "failed".

(** A terminal after [ls], with [python main.py] typed between blanks. *)
Definition terminal_typed : Terminal :=
  {| term_history := ["ls"];
     term_history_index := 1;
     term_input := "  python main.py ";
     term_output := [] |}.

(** A terminal after three commands, with nothing typed. *)
Definition terminal_three : Terminal :=
  {| term_history := ["ls"; "pwd"; "git status"];
     term_history_index := 3;
     term_input := EmptyString;
     term_output := [] |}.

(** A terminal with blanks typed. *)
Definition terminal_blank : Terminal :=
  {| term_history := ["ls"];
     term_history_index := 1;
     term_input := "   ";
     term_output := [] |}.

(* ================================================================= *)
(** ** The keys of the editor and of the popup *)

(** [s * n] for a string and an integer: nothing for [n <= 0]. *)
Fixpoint string_times (s : string) (n : nat) : string :=
  match n with
  | O => EmptyString
  | S n' => (s ++ string_times s n')%string
  end.

(** [handle_tab], on the widget of the event, with
    [config['tab_size']]. *)
Definition handle_tab (tab_size : Z) (widget : TextWidget) : TextWidget :=
  text_insert widget (tw_insert widget) (string_times " " (Z.to_nat tab_size)).

(** [setup_autocomplete] *)
Definition setup_autocomplete (ide : IDE) : IDE :=
  set_completion_list (set_completion_window ide None) None.

(** The events that the program binds to the completion code:
    [<Control-space>] on the editor, and on the list of the popup the
    four navigation keys (any key symbol may reach the handler),
    [<Return>], [<Double-Button-1>] and [<Escape>]. *)
Inductive event : Type :=
| ControlSpace
| ListKey (keysym : string)
| ListReturn
| ListDoubleClick
| ListEscape.

(** The handler bound to an event. *)
Definition dispatch (ev : event) (ide : IDE) : outcome IDE :=
  match ev with
  | ControlSpace => Returned (show_completions ide)
  | ListKey keysym => _navigate_completions keysym ide
  | ListReturn | ListDoubleClick => insert_completion ide
  | ListEscape => on_escape ide
  end.

(** Tk reports an exception of a handler and goes on; the handlers
    above raise before they change anything. *)
Definition handle (ev : event) (ide : IDE) : IDE :=
  match dispatch ev ide with
  | Returned ide' => ide'
  | Raised _ => ide
  end.

Definition run (events : list event) (ide : IDE) : IDE :=
  fold_left (fun st ev => handle ev st) events ide.

(** What holds of a popup that is still alive: both attributes refer
    to it, its entries are those of the completions kept, in their
    order, and exactly one entry of it is selected. *)
Definition popup_consistent (ide : IDE) (ref : nat) (p : Popup) : Prop :=
  completion_window ide = Some ref
  /\ completion_list ide = Some ref
  /\ items p = map entry_text (current_completions ide)
  /\ exists i,
      selection p = [i] /\ 0 <= i < Z.of_nat (List.length (items p)).

Definition session_invariant (ide : IDE) : Prop :=
  forall ref p,
    nth_error (widgets ide) ref = Some p ->
    destroyed p = false ->
    popup_consistent ide ref p.

(** [ide'] differs from [ide] at most in the entries selected in the
    list boxes. *)
Definition selection_only (ide ide' : IDE) : Prop :=
  current_editor ide' = current_editor ide
  /\ educational_hints ide' = educational_hints ide
  /\ completion_window ide' = completion_window ide
  /\ completion_list ide' = completion_list ide
  /\ current_completions ide' = current_completions ide
  /\ map (fun p => (destroyed p, items p)) (widgets ide')
     = map (fun p => (destroyed p, items p)) (widgets ide).

(** Every character of the string is alphanumeric or an underscore. *)
Fixpoint all_word_chars (s : string) : bool :=
  match s with
  | String c rest => (is_word_char c && all_word_chars rest)%bool
  | EmptyString => true
  end.

(** The number of nodes in a queue of trees. *)
Definition total_size (todo : list node) : nat :=
  list_sum (map node_size todo).

(** The sum of a list of integers. *)
Definition sumZ (l : list Z) : Z := fold_right Z.add 0 l.

(** A node that [_count_docstrings] counts. *)
Definition has_docstring (n : node) : bool :=
  ((is_FunctionDef n || is_ClassDef n || is_Module n)
   && truthy (get_docstring n))%bool.

(** The decision points of a tree, node by node in document order. *)
Definition complexity_of (n : node) : Z :=
  sumZ (map decision_points (preorder n)).

Definition is_empty (s : string) : bool :=
  match s with
  | EmptyString => true
  | String _ _ => false
  end.

(** Whether the last piece of [split_nl_from cur s] is empty. *)
Definition last_piece_empty (cur s : string) : bool :=
  match s with
  | EmptyString => is_empty cur
  | String _ _ => ends_line s
  end.

(* ================================================================= *)
(** * Properties *)

(** ** Lists *)

Lemma sumZ_app : forall l1 l2, sumZ (l1 ++ l2) = sumZ l1 + sumZ l2.
Proof.
  induction l1 as [|x l1 IH]; intros l2; simpl; [reflexivity|].
  rewrite IH. lia.
Qed.

Lemma sumZ_cons : forall x l, sumZ (x :: l) = x + sumZ l.
Proof. reflexivity. Qed.

Lemma sumZ_permutation : forall l1 l2, Permutation l1 l2 -> sumZ l1 = sumZ l2.
Proof.
  induction 1; simpl; lia.
Qed.

Lemma filter_permutation {A : Type} (p : A -> bool) :
  forall l1 l2, Permutation l1 l2 -> Permutation (filter p l1) (filter p l2).
Proof.
  induction 1; simpl.
  - constructor.
  - destruct (p x); auto.
  - destruct (p x), (p y); auto using perm_swap.
  - eapply perm_trans; eassumption.
Qed.

Lemma count_permutation {A : Type} (p : A -> bool) :
  forall l1 l2, Permutation l1 l2 -> count p l1 = count p l2.
Proof.
  intros l1 l2 H. unfold count.
  now rewrite (Permutation_length (filter_permutation p _ _ H)).
Qed.

Lemma count_app {A : Type} (p : A -> bool) :
  forall l1 l2, count p (l1 ++ l2) = count p l1 + count p l2.
Proof.
  intros. unfold count. rewrite filter_app, length_app. lia.
Qed.

Lemma count_nonneg {A : Type} (p : A -> bool) (l : list A) : 0 <= count p l.
Proof. unfold count. lia. Qed.

Lemma count_weaken {A : Type} (p q : A -> bool) (l : list A) :
  (forall x, p x = true -> q x = true) -> count p l <= count q l.
Proof.
  intros H. unfold count.
  induction l as [|x l IH]; [simpl; lia|].
  cbn [filter].
  destruct (p x) eqn:Hp.
  - rewrite (H x Hp). cbn [List.length]. lia.
  - destruct (q x); cbn [List.length]; lia.
Qed.

(** ** The tree walk *)

Lemma node_size_children :
  forall n, node_size n = S (total_size (iter_child_nodes n)).
Proof.
  intros [cls fields]. unfold iter_child_nodes, total_size. simpl.
  f_equal.
  induction fields as [|f fields IH]; simpl; [reflexivity|].
  rewrite map_app, list_sum_app, IH. reflexivity.
Qed.

Lemma preorder_children :
  forall n, preorder n = n :: flat_map preorder (iter_child_nodes n).
Proof.
  intros [cls fields]. unfold iter_child_nodes. simpl.
  f_equal.
  induction fields as [|f fields IH]; simpl; [reflexivity|].
  rewrite flat_map_app, IH. reflexivity.
Qed.

Lemma total_size_app :
  forall q1 q2, total_size (q1 ++ q2) = (total_size q1 + total_size q2)%nat.
Proof.
  intros. unfold total_size. now rewrite map_app, list_sum_app.
Qed.

Lemma total_size_cons :
  forall n q, total_size (n :: q) = (node_size n + total_size q)%nat.
Proof. reflexivity. Qed.

(** With fuel for every node in the queue, the loop of [ast.walk] yields
    exactly the nodes of the queued trees. *)
Lemma walk_queue_permutation :
  forall fuel todo,
    (total_size todo <= fuel)%nat ->
    Permutation (walk_queue fuel todo) (flat_map preorder todo).
Proof.
  induction fuel as [|fuel IH]; intros todo Hfuel.
  - destruct todo as [|n rest]; [constructor|].
    rewrite total_size_cons, node_size_children in Hfuel. lia.
  - destruct todo as [|n rest]; [constructor|].
    cbn [walk_queue flat_map].
    rewrite (preorder_children n). cbn [app].
    constructor.
    eapply perm_trans.
    + apply IH.
      rewrite total_size_cons, node_size_children in Hfuel.
      rewrite total_size_app. lia.
    + rewrite flat_map_app. apply Permutation_app_comm.
Qed.

(** [ast.walk] terminates having yielded every node of the tree once. *)
Lemma walk_visits_every_node :
  forall tree, Permutation (walk tree) (preorder tree).
Proof.
  intros tree. unfold walk.
  eapply perm_trans.
  - apply walk_queue_permutation. rewrite total_size_cons.
    unfold total_size. simpl. lia.
  - simpl. rewrite app_nil_r. apply Permutation_refl.
Qed.

(** Induction on a tree: a property that holds of a node whenever it
    holds of the nodes in its fields holds of every node. *)
Lemma node_induction (P : node -> Prop) :
  (forall cls fields,
      Forall (fun f => Forall P (snd f)) fields -> P (Node cls fields)) ->
  forall n, P n.
Proof.
  intros step. fix F 1. intros [cls fields]. apply step.
  induction fields as [|[name nodes] fields IH]; constructor; [|exact IH].
  simpl. induction nodes as [|c nodes IHnodes]; constructor;
    [apply F | exact IHnodes].
Qed.

Lemma Forall_flat_map {A B : Type} (P : B -> Prop) (f : A -> list B) :
  forall l, Forall (fun x => Forall P (f x)) l -> Forall P (flat_map f l).
Proof.
  induction 1; simpl; [constructor|].
  apply Forall_app. split; assumption.
Qed.

(** Every node below a statement-shaped node is statement-shaped. *)
Lemma statement_shaped_preorder :
  forall n,
    statement_shaped n = true ->
    Forall (fun m => statement_shaped m = true) (preorder n).
Proof.
  induction n as [cls fields IH] using node_induction.
  intros Hn. cbn [preorder]. constructor; [exact Hn|].
  cbn [statement_shaped] in Hn.
  apply andb_true_iff in Hn. destruct Hn as [_ Hfields].
  rewrite forallb_forall in Hfields.
  apply Forall_flat_map.
  rewrite Forall_forall in IH |- *.
  intros f Hf. apply Forall_flat_map.
  specialize (IH f Hf). specialize (Hfields f Hf).
  rewrite forallb_forall in Hfields.
  rewrite Forall_forall in IH |- *.
  intros c Hc. apply IH; auto.
Qed.

Lemma module_shaped_preorder :
  forall tree,
    module_shaped tree = true ->
    is_Module tree = true
    /\ Forall (fun m => statement_shaped m = true) (tl (preorder tree)).
Proof.
  intros [cls fields] H. unfold module_shaped in H.
  destruct cls; try discriminate. split; [reflexivity|].
  cbn [preorder tl].
  rewrite forallb_forall in H.
  apply Forall_flat_map. rewrite Forall_forall. intros f Hf.
  apply Forall_flat_map. specialize (H f Hf).
  rewrite forallb_forall in H. rewrite Forall_forall. intros c Hc.
  apply statement_shaped_preorder. auto.
Qed.

Lemma statement_shaped_not_Module :
  forall n, statement_shaped n = true -> is_Module n = false.
Proof.
  intros [cls fields] H. cbn [statement_shaped] in H.
  destruct cls; try reflexivity. discriminate.
Qed.

Lemma count_none {A : Type} (p : A -> bool) (l : list A) :
  Forall (fun x => p x = false) l -> count p l = 0.
Proof.
  unfold count. induction 1 as [|x l Hx _ IH]; simpl; [reflexivity|].
  rewrite Hx. exact IH.
Qed.

(** The tree of a module has exactly one [Module] node. *)
Lemma one_Module :
  forall tree, module_shaped tree = true -> count is_Module (walk tree) = 1.
Proof.
  intros tree H.
  rewrite (count_permutation _ _ _ (walk_visits_every_node tree)).
  destruct (module_shaped_preorder tree H) as [Hroot Hrest].
  rewrite (preorder_children tree) in Hrest |- *. cbn [tl] in Hrest.
  change (count is_Module (tree :: ?l)) with (count is_Module ([tree] ++ l)).
  rewrite count_app, (count_none is_Module (flat_map _ _)).
  - unfold count. simpl. rewrite Hroot. reflexivity.
  - eapply Forall_impl; [|exact Hrest].
    intros m Hm. simpl in Hm. now apply statement_shaped_not_Module.
Qed.

(** ** [CodeAnalyzer] *)

Lemma calculate_complexity_sum :
  forall tree,
    _calculate_complexity tree = sumZ (map decision_points (walk tree)).
Proof.
  intros tree. unfold _calculate_complexity.
  assert (G : forall l acc,
             fold_left
               (fun complexity node =>
                  if is_branching node then complexity + 1
                  else if is_BoolOp node
                       then complexity
                            + (Z.of_nat (List.length (get_field "values" node)) - 1)
                       else complexity) l acc
             = acc + sumZ (map decision_points l)).
  { induction l as [|n l IH]; intros acc; [simpl; lia|].
    cbn [fold_left map]. rewrite IH.
    unfold sumZ. cbn [fold_right]. unfold decision_points.
    destruct (is_branching n); [lia|]. destruct (is_BoolOp n); lia. }
  rewrite G. lia.
Qed.

Lemma count_docstrings_count :
  forall tree, _count_docstrings tree = count has_docstring (walk tree).
Proof.
  intros tree. unfold _count_docstrings.
  assert (G : forall l acc,
             fold_left
               (fun count node =>
                  if (is_FunctionDef node || is_ClassDef node
                      || is_Module node)%bool
                  then if truthy (get_docstring node) then count + 1 else count
                  else count) l acc
             = acc + count has_docstring l).
  { induction l as [|n l IH]; intros acc; [unfold count; simpl; lia|].
    cbn [fold_left]. rewrite IH. unfold count, has_docstring. cbn [filter].
    destruct (is_FunctionDef n || is_ClassDef n || is_Module n)%bool;
      cbn [andb]; [|lia].
    destruct (truthy (get_docstring n)); cbn [List.length]; lia. }
  rewrite G. lia.
Qed.

Lemma count_three {A : Type} (p q r : A -> bool) (l : list A) :
  count (fun x => (p x || q x || r x)%bool) l
  <= count p l + count q l + count r l.
Proof.
  unfold count. induction l as [|x l IH]; [simpl; lia|].
  cbn [filter].
  destruct (p x), (q x), (r x); cbn [orb List.length]; lia.
Qed.

Lemma calculate_complexity_preorder :
  forall tree, _calculate_complexity tree = complexity_of tree.
Proof.
  intros tree. rewrite calculate_complexity_sum. unfold complexity_of.
  apply sumZ_permutation, Permutation_map, walk_visits_every_node.
Qed.

Lemma sumZ_flat_map {A : Type} (f : A -> list Z) :
  forall l, sumZ (flat_map f l) = sumZ (map (fun x => sumZ (f x)) l).
Proof.
  induction l as [|x l IH]; [reflexivity|].
  cbn [flat_map map]. rewrite sumZ_app, IH. reflexivity.
Qed.

(** The decision points in the trees of a list. *)
Lemma complexity_of_forest :
  forall nodes,
    sumZ (map decision_points (flat_map preorder nodes))
    = sumZ (map complexity_of nodes).
Proof.
  induction nodes as [|n nodes IH]; [reflexivity|].
  cbn [flat_map map]. rewrite map_app, sumZ_app, IH. reflexivity.
Qed.

Lemma complexity_of_node :
  forall cls fields,
    complexity_of (Node cls fields)
    = decision_points (Node cls fields)
      + sumZ (map (fun f => sumZ (map complexity_of (snd f))) fields).
Proof.
  intros cls fields. unfold complexity_of at 1. cbn [preorder map].
  rewrite sumZ_cons. f_equal.
  induction fields as [|f fields IH]; [reflexivity|].
  cbn [flat_map map]. rewrite map_app, sumZ_app, sumZ_cons.
  rewrite IH, complexity_of_forest. reflexivity.
Qed.

Lemma lookup_field_same_length :
  forall key before name left child child' right after,
    List.length
      (lookup_field key (before ++ (name, left ++ child :: right) :: after))
    = List.length
        (lookup_field key (before ++ (name, left ++ child' :: right) :: after)).
Proof.
  intros key before name left child child' right after.
  induction before as [|[k v] before IH]; cbn [app lookup_field].
  - destruct (String.eqb name key); [|reflexivity].
    rewrite !length_app. reflexivity.
  - destruct (String.eqb k key); [reflexivity | exact IH].
Qed.

Lemma fields_sum_replace :
  forall (g : list node -> Z) (before : list (string * list node))
         (name : string) old new after,
    sumZ (map (fun f => g (snd f)) (before ++ (name, new) :: after))
    = sumZ (map (fun f => g (snd f)) (before ++ (name, old) :: after))
      + (g new - g old).
Proof.
  intros. rewrite !map_app, !sumZ_app. cbn [map snd].
  rewrite !sumZ_cons. lia.
Qed.

(** Putting a statement into a function body adds the decision points
    of the statement and changes nothing else. *)
Lemma add_statement_complexity :
  forall stmt tree tree',
    add_statement stmt tree tree' ->
    complexity_of tree' = complexity_of tree + complexity_of stmt.
Proof.
  intros stmt tree tree' H.
  induction H as [cls before body1 body2 after Hcls _
                 | cls before name left child child' right after _ IH].
  - rewrite !complexity_of_node.
    rewrite (fields_sum_replace (fun l => sumZ (map complexity_of l))
               before "body" (body1 ++ body2) (body1 ++ stmt :: body2) after).
    rewrite !map_app, !sumZ_app. cbn [map snd]. rewrite !sumZ_cons.
    assert (D : forall fields fields',
               decision_points (Node cls fields)
               = decision_points (Node cls fields')).
    { intros. unfold decision_points, is_branching, is_BoolOp. cbn [node_class].
      destruct cls; try discriminate; reflexivity. }
    rewrite (D _ (before ++ ("body", body1 ++ body2) :: after)). lia.
  - rewrite !complexity_of_node.
    rewrite (fields_sum_replace (fun l => sumZ (map complexity_of l))
               before name (left ++ child :: right) (left ++ child' :: right)
               after).
    rewrite !map_app, !sumZ_app. cbn [map snd]. rewrite !sumZ_cons.
    assert (D : decision_points
                  (Node cls (before ++ (name, left ++ child' :: right) :: after))
                = decision_points
                    (Node cls (before ++ (name, left ++ child :: right) :: after))).
    { unfold decision_points, is_branching, is_BoolOp, get_field.
      cbn [node_class node_fields].
      now rewrite (lookup_field_same_length "values" before name left
                     child child' right after). }
    rewrite D, IH. lia.
Qed.

Lemma decision_points_nonneg :
  forall n, statement_shaped n = true -> 0 <= decision_points n.
Proof.
  intros [cls fields] H. unfold decision_points.
  destruct (is_branching (Node cls fields)); [lia|].
  destruct (is_BoolOp (Node cls fields)) eqn:B; [|lia].
  unfold is_BoolOp in B. cbn [node_class] in B.
  destruct cls; try discriminate.
  cbn [statement_shaped] in H. apply andb_true_iff in H. destruct H as [H _].
  apply Nat.leb_le in H. unfold get_field. cbn [node_fields]. lia.
Qed.

Lemma sumZ_nonneg :
  forall l, Forall (fun x => 0 <= x) l -> 0 <= sumZ l.
Proof.
  induction 1; simpl; lia.
Qed.

(** A branching statement counts for at least one decision point. *)
Lemma branching_complexity :
  forall stmt,
    is_branching stmt = true ->
    statement_shaped stmt = true ->
    1 <= complexity_of stmt.
Proof.
  intros stmt Hb Hs. unfold complexity_of.
  pose proof (statement_shaped_preorder stmt Hs) as Hall.
  rewrite (preorder_children stmt) in Hall |- *.
  cbn [map]. rewrite sumZ_cons.
  unfold decision_points at 1. rewrite Hb.
  inversion Hall as [|? ? _ Hrest]; subst.
  assert (0 <= sumZ (map decision_points
                       (flat_map preorder (iter_child_nodes stmt)))).
  { apply sumZ_nonneg. rewrite Forall_map.
    eapply Forall_impl; [|exact Hrest].
    intros m Hm. now apply decision_points_nonneg. }
  lia.
Qed.

(** ** Lines of a text *)

Lemma is_empty_snoc :
  forall cur c, is_empty (cur ++ String c EmptyString)%string = false.
Proof. intros [|a cur] c; reflexivity. Qed.

Lemma is_linebreak_nl : is_linebreak nl = true.
Proof. reflexivity. Qed.

Lemma nl_is_not_cr : Ascii.eqb nl cr = false.
Proof. reflexivity. Qed.

(** Where the newline is the only line boundary, [splitlines] yields the
    pieces of splitting on newlines, without the last one if that is
    empty. *)
Lemma splitlines_from_length :
  forall s cur,
    newline_only s = true ->
    List.length (split_nl_from cur s)
    = (List.length (splitlines_from cur s)
       + (if last_piece_empty cur s then 1 else 0))%nat.
Proof.
  induction s as [|c rest IH]; intros cur Hs.
  - cbn [split_nl_from splitlines_from last_piece_empty].
    destruct cur; reflexivity.
  - cbn [newline_only] in Hs. apply andb_true_iff in Hs.
    destruct Hs as [Hc Hrest].
    cbn [split_nl_from splitlines_from].
    destruct (Ascii.eqb c nl) eqn:E.
    + apply Ascii.eqb_eq in E. subst c.
      rewrite is_linebreak_nl, nl_is_not_cr. cbn [andb].
      assert (R : match rest with
                  | String _ _ => cur :: splitlines_from EmptyString rest
                  | EmptyString => cur :: splitlines_from EmptyString rest
                  end = cur :: splitlines_from EmptyString rest)
        by (destruct rest; reflexivity).
      rewrite R. cbn [List.length]. rewrite (IH EmptyString Hrest).
      unfold last_piece_empty. cbn [ends_line is_empty].
      destruct rest; reflexivity.
    + cbn [orb] in Hc. apply negb_true_iff in Hc. rewrite Hc.
      rewrite (IH _ Hrest).
      unfold last_piece_empty. cbn [ends_line]. rewrite is_empty_snoc.
      destruct rest; [now rewrite E | reflexivity].
Qed.

Lemma splitlines_length :
  forall s,
    newline_only s = true ->
    Z.of_nat (List.length (splitlines s))
    = Z.of_nat (List.length (split_nl s)) - (if ends_line s then 1 else 0).
Proof.
  intros s Hs. unfold splitlines, split_nl.
  rewrite (splitlines_from_length s EmptyString Hs).
  assert (E : last_piece_empty EmptyString s = ends_line s)
    by (destruct s; reflexivity).
  rewrite E. destruct (ends_line s); lia.
Qed.

(** ** The claims on [analyze_code] *)

(** C2, as the code has it.  When [ast.parse] raises on the text (a
    [SyntaxError] for a text that is not valid Python, or any other
    exception), [analyze_code] raises nothing and returns the empty
    dict: none of the seven counts is present in it, so that a count
    reads as zero only through a lookup with default zero, as
    [metrics.get(key, 0)] in [update_metrics]. *)
Theorem analyze_code_invalid :
  forall code_text e,
    ast_parse code_text = Raised e ->
    exists metrics,
      analyze_code code_text = Returned metrics
      /\ metrics = []
      /\ (forall key, dict_get metrics key = None)
      /\ (forall key, dict_get_default metrics key 0 = 0).
Proof.
  intros code_text e H. exists []. unfold analyze_code. rewrite H.
  repeat split.
Qed.

(** C3, as the code has it.  For a text that parses, the count under
    ["loc"] is the number of lines [str.splitlines] yields.  Where the
    newline is the only line boundary in the text, that is the number
    of pieces of splitting on the newline character, less one when the
    text is empty or ends with a newline. *)
Theorem loc_counts_splitlines :
  forall code_text tree,
    ast_parse code_text = Returned tree ->
    exists metrics,
      analyze_code code_text = Returned metrics
      /\ dict_get metrics "loc"
         = Some (Z.of_nat (List.length (splitlines code_text)))
      /\ (newline_only code_text = true ->
          dict_get metrics "loc"
          = Some (Z.of_nat (List.length (split_nl code_text))
                  - (if ends_line code_text then 1 else 0))).
Proof.
  intros code_text tree H. unfold analyze_code. rewrite H.
  cbn [bind try_except]. eexists. split; [reflexivity|].
  split; [reflexivity|].
  intros Hs. cbn [dict_get String.eqb]. rewrite <- (splitlines_length _ Hs).
  reflexivity.
Qed.

(** C10.  For a text that parses, the count of docstrings is at most the
    count of functions plus the count of classes plus one: a docstring
    is counted on a [FunctionDef], a [ClassDef] or a [Module] node only,
    once for a node, and the tree has one [Module] node. *)
Theorem docstrings_bounded :
  forall code_text tree,
    ast_parse code_text = Returned tree ->
    module_shaped tree = true ->
    exists metrics docstrings functions classes,
      analyze_code code_text = Returned metrics
      /\ dict_get metrics "docstrings" = Some docstrings
      /\ dict_get metrics "functions" = Some functions
      /\ dict_get metrics "classes" = Some classes
      /\ docstrings = count has_docstring (walk tree)
      /\ docstrings <= functions + classes + 1.
Proof.
  intros code_text tree H Hshape. unfold analyze_code. rewrite H.
  cbn [bind try_except]. do 4 eexists.
  split; [reflexivity|]. repeat (split; [reflexivity|]).
  split; [apply count_docstrings_count|].
  rewrite count_docstrings_count.
  eapply Z.le_trans.
  - apply (count_weaken has_docstring
             (fun n => (is_FunctionDef n || is_ClassDef n || is_Module n)%bool)).
    intros n Hn. unfold has_docstring in Hn.
    now apply andb_true_iff in Hn.
  - eapply Z.le_trans; [apply count_three|].
    rewrite (one_Module tree Hshape). lia.
Qed.

(** C9.  When a branching statement (an [If], [While], [For], [Try],
    [ExceptHandler], [With] or [Assert] node) is put into the body of a
    function definition of a text that parses, and nothing is taken
    away, the complexity of the new text is at least that of the old
    one. *)
Theorem complexity_monotone :
  forall code_text code_text' tree tree' stmt,
    ast_parse code_text = Returned tree ->
    ast_parse code_text' = Returned tree' ->
    add_statement stmt tree tree' ->
    is_branching stmt = true ->
    statement_shaped stmt = true ->
    exists metrics metrics' complexity complexity',
      analyze_code code_text = Returned metrics
      /\ analyze_code code_text' = Returned metrics'
      /\ dict_get metrics "complexity" = Some complexity
      /\ dict_get metrics' "complexity" = Some complexity'
      /\ complexity <= complexity'.
Proof.
  intros code_text code_text' tree tree' stmt H H' Hadd Hb Hs.
  unfold analyze_code. rewrite H, H'. cbn [bind try_except].
  do 4 eexists.
  split; [reflexivity|]. split; [reflexivity|].
  split; [reflexivity|]. split; [reflexivity|].
  rewrite !calculate_complexity_preorder.
  rewrite (add_statement_complexity stmt tree tree' Hadd).
  pose proof (branching_complexity stmt Hb Hs). lia.
Qed.

(** ** The claims on [show_educational_hints] *)

Lemma line_shape_first_match :
  forall hints line,
    line_shape hints line = hints ++ first_match line_shape_rules line.
Proof.
  intros hints line. unfold line_shape, first_match, line_shape_rules, append.
  cbn [find fst snd existsb]. rewrite orb_false_r.
  repeat match goal with
         | |- context [if ?b then _ else _] => destruct b
         end;
    try reflexivity.
  now rewrite app_nil_r.
Qed.

(** [offending] is the test of the loop in [show_educational_hints]. *)
Lemma offending_test :
  forall n,
    offending n
    = (is_FunctionDef n
       && (20 <? Z.of_nat (List.length (get_field "body" n))))%bool.
Proof.
  intros n. unfold offending, is_FunctionDef.
  destruct (node_class n); reflexivity.
Qed.

Lemma complexity_hints_walk :
  forall tree hints,
    complexity_hints hints tree
    = hints ++ map (fun _ => COMPLEXITY_TIPS) (filter offending (walk tree)).
Proof.
  intros tree. unfold complexity_hints.
  induction (walk tree) as [|n l IH]; intros hints.
  - cbn. now rewrite app_nil_r.
  - cbn [fold_left filter]. rewrite IH, (offending_test n). unfold append.
    destruct (is_FunctionDef n); cbn [andb]; [|reflexivity].
    destruct (20 <? Z.of_nat (List.length (get_field "body" n)));
      [|reflexivity].
    cbn [map]. now rewrite <- app_assoc.
Qed.

Lemma map_constant_length {A B : Type} (b : B) :
  forall l1 l2 : list A,
    List.length l1 = List.length l2 ->
    map (fun _ => b) l1 = map (fun _ => b) l2.
Proof.
  induction l1 as [|x l1 IH]; intros [|y l2] H; try discriminate.
  - reflexivity.
  - cbn [map]. f_equal. apply IH. now injection H.
Qed.

(** The complexity hints are all the same text, so the order in which
    [ast.walk] meets the functions does not show: the hints are those of
    the offending functions in document order. *)
Lemma complexity_hints_structural :
  forall tree hints,
    complexity_hints hints tree = hints ++ structural_hints tree.
Proof.
  intros tree hints. rewrite complexity_hints_walk. unfold structural_hints.
  f_equal. apply map_constant_length, Permutation_length, filter_permutation.
  apply walk_visits_every_node.
Qed.

Lemma hints_for_shape :
  forall code line tree,
    ast_parse code = Returned tree ->
    hints_for code line
    = first_match line_shape_rules line
      ++ structural_hints tree ++ [BEST_PRACTICES].
Proof.
  intros code line tree H. unfold hints_for. rewrite H.
  rewrite complexity_hints_structural, line_shape_first_match.
  unfold append. cbn [app]. now rewrite <- app_assoc.
Qed.

Lemma first_match_line_shape :
  forall line,
    filter is_line_shape_hint (first_match line_shape_rules line)
    = first_match line_shape_rules line.
Proof.
  intros line. unfold first_match, line_shape_rules.
  cbn [find fst snd].
  repeat match goal with
         | |- context [if ?b then _ else _] => destruct b
         end;
    reflexivity.
Qed.

Lemma first_match_at_most_one :
  forall rules line, (List.length (first_match rules line) <= 1)%nat.
Proof.
  intros rules line. unfold first_match.
  destruct (find (fun rule => fst rule line) rules); simpl; lia.
Qed.

Lemma structural_hints_not_line_shape :
  forall tree, filter is_line_shape_hint (structural_hints tree) = [].
Proof.
  intros tree. unfold structural_hints.
  induction (filter offending (preorder tree)) as [|n l IH]; [reflexivity|].
  cbn [map filter].
  replace (is_line_shape_hint COMPLEXITY_TIPS) with false by reflexivity.
  exact IH.
Qed.

(** C4.  For a text that parses, the hints hold at most one line-shape
    hint: the message of the first rule that matches the line, in the
    order function definition, class definition, loop, exception
    handling, import, plain assignment, conditional, call.  It comes
    first, and no hint after it is a line-shape hint. *)
Theorem one_line_shape_hint :
  forall code line tree,
    ast_parse code = Returned tree ->
    exists rest,
      hints_for code line = first_match line_shape_rules line ++ rest
      /\ filter is_line_shape_hint rest = []
      /\ filter is_line_shape_hint (hints_for code line)
         = first_match line_shape_rules line
      /\ (List.length (filter is_line_shape_hint (hints_for code line))
          <= 1)%nat.
Proof.
  intros code line tree H.
  assert (R : filter is_line_shape_hint
                (structural_hints tree ++ [BEST_PRACTICES]) = []).
  { rewrite filter_app, structural_hints_not_line_shape. reflexivity. }
  assert (F : filter is_line_shape_hint (hints_for code line)
              = first_match line_shape_rules line).
  { rewrite (hints_for_shape code line tree H), filter_app, R.
    rewrite first_match_line_shape. apply app_nil_r. }
  exists (structural_hints tree ++ [BEST_PRACTICES]).
  split; [exact (hints_for_shape code line tree H)|].
  split; [exact R|]. split; [exact F|].
  rewrite F. apply first_match_at_most_one.
Qed.

(** C5, as the code has it.  For a text that parses, the hints are: the
    line-shape hint if there is one, then one complexity hint for each
    function definition written with [def] (a [FunctionDef] node) whose
    body has more than 20 statements, in the document order of these
    functions, then the best-practices hint.  Every function so counted
    is a function definition of more than 20 statements, and the ones
    of these that get no hint are those written with [async def]. *)
Theorem structural_hints_in_order :
  forall code line tree,
    ast_parse code = Returned tree ->
    hints_for code line
    = line_shape [] line
      ++ map (fun _ => COMPLEXITY_TIPS) (filter offending (preorder tree))
      ++ [BEST_PRACTICES]
    /\ (List.length (line_shape [] line) <= 1)%nat
    /\ (forall n, offending n = true -> long_function_definition n = true)
    /\ (forall n,
          long_function_definition n = true ->
          offending n = false ->
          node_class n = AsyncFunctionDef).
Proof.
  intros code line tree H.
  rewrite line_shape_first_match. cbn [app].
  split; [exact (hints_for_shape code line tree H)|].
  split; [apply first_match_at_most_one|].
  split; intros n; unfold offending, long_function_definition, is_function_class;
    destruct (node_class n); cbn [andb]; congruence.
Qed.

(** C6.  For a text that parses and any line, the hints are not empty
    and the last of them is the best-practices message. *)
Theorem best_practices_last :
  forall code line tree,
    ast_parse code = Returned tree ->
    hints_for code line <> []
    /\ last (hints_for code line) EmptyString = BEST_PRACTICES.
Proof.
  intros code line tree H. unfold hints_for. rewrite H. unfold append at 1.
  split.
  - intros E. now apply app_eq_nil in E.
  - apply last_last.
Qed.

(** ** The popup and its list *)

Lemma replace_nth_length {A : Type} :
  forall n (x : A) l, List.length (replace_nth n x l) = List.length l.
Proof.
  induction n as [|n IH]; intros x [|y l]; cbn [replace_nth List.length];
    try reflexivity.
  now rewrite IH.
Qed.

Lemma nth_error_replace_nth {A : Type} :
  forall n (x y : A) l,
    nth_error l n = Some y -> nth_error (replace_nth n x l) n = Some x.
Proof.
  induction n as [|n IH]; intros x y [|z l] H; try discriminate.
  - reflexivity.
  - cbn [replace_nth nth_error] in *. eapply IH. exact H.
Qed.

Lemma live_update :
  forall ide ref p p',
    nth_error (widgets ide) ref = Some p ->
    destroyed p' = false ->
    live (update ide ref p') ref = Returned p'.
Proof.
  intros ide ref p p' Hp Hd. unfold live, update. cbn [widgets set_widgets].
  rewrite (nth_error_replace_nth ref p' p _ Hp), Hd. reflexivity.
Qed.

Lemma nth_error_update :
  forall ide ref p p',
    nth_error (widgets ide) ref = Some p ->
    nth_error (widgets (update ide ref p')) ref = Some p'.
Proof.
  intros. unfold update. cbn [widgets set_widgets].
  eapply nth_error_replace_nth. eassumption.
Qed.

(** What it is for the list to be open with entry [i] selected. *)
Lemma selected_index_inv :
  forall ide i,
    selected_index ide = Some i ->
    exists ref p rest,
      completion_list ide = Some ref
      /\ nth_error (widgets ide) ref = Some p
      /\ destroyed p = false
      /\ selection p = i :: rest.
Proof.
  intros ide i H. unfold selected_index, live in H.
  destruct (completion_list ide) as [ref|]; [|discriminate].
  destruct (nth_error (widgets ide) ref) as [p|] eqn:Hp; [|discriminate].
  destruct (destroyed p) eqn:Hd; [discriminate|].
  destruct (selection p) as [|j rest] eqn:Hs; [discriminate|].
  cbn in H. injection H as ->.
  exists ref, p, rest. auto.
Qed.

Lemma candidate_count_inv :
  forall ide n ref p,
    candidate_count ide = Some n ->
    completion_list ide = Some ref ->
    nth_error (widgets ide) ref = Some p ->
    n = Z.of_nat (List.length (items p)).
Proof.
  intros ide n ref p H Hl Hp. unfold candidate_count, live in H.
  rewrite Hl, Hp in H. destruct (destroyed p); [discriminate|].
  now injection H.
Qed.

(** One call of [_navigate_completions] on an open list with entry [i]
    selected: the selection becomes the single entry [new]. *)
Lemma navigate_step :
  forall ide n i keysym d,
    candidate_count ide = Some n ->
    selected_index ide = Some i ->
    0 <= i < n ->
    move_of keysym = Some d ->
    exists ide',
      _navigate_completions keysym ide = Returned ide'
      /\ candidate_count ide' = Some n
      /\ selected_index ide' = Some (clamp n (i + d)).
Proof.
  intros ide n i keysym d Hn Hi Hrange Hd.
  destruct (selected_index_inv ide i Hi) as (ref & p & rest & Hl & Hp & Hlive & Hs).
  pose proof (candidate_count_inv ide n ref p Hn Hl Hp) as Hsize.
  set (cleared := popup_select_clear_all p).
  set (new := clamp n (i + d)).
  assert (Hnew : 0 <= new < n) by (unfold new, clamp; lia).
  set (chosen := popup_select_set cleared new).
  assert (Hchosen : chosen = {| destroyed := false; items := items p;
                                selection := [new] |}).
  { unfold chosen, popup_select_set, cleared, popup_select_clear_all.
    cbn [items destroyed selection]. rewrite Hlive.
    replace ((0 <=? new) && (new <? Z.of_nat (List.length (items p))))%bool
      with true; [reflexivity|].
    symmetry. apply andb_true_iff. split; [apply Z.leb_le | apply Z.ltb_lt]; lia. }
  exists (update (update ide ref cleared) ref chosen).
  assert (Hrun : forall new',
             new' = new ->
             (ide0 <- select_clear_all ide ref ;; select_set ide0 ref new')
             = Returned (update (update ide ref cleared) ref chosen)).
  { intros new' ->. unfold select_clear_all, live.
    rewrite Hp, Hlive. cbn [bind]. fold cleared. unfold select_set.
    rewrite (live_update ide ref p cleared Hp Hlive). reflexivity. }
  split; [|split].
  - unfold _navigate_completions, curselection, size, live.
    rewrite Hl, Hp, Hlive. cbn [bind]. rewrite Hs.
    unfold move_of in Hd.
    destruct (String.eqb keysym "Up");
      [injection Hd as <-; apply Hrun; unfold new, clamp; lia|].
    destruct (String.eqb keysym "Down");
      [injection Hd as <-; apply Hrun; unfold new, clamp; lia|].
    destruct (String.eqb keysym "Prior");
      [injection Hd as <-; apply Hrun; unfold new, clamp; lia|].
    destruct (String.eqb keysym "Next");
      [injection Hd as <-; apply Hrun; unfold new, clamp; lia|].
    discriminate.
  - unfold candidate_count. cbn [completion_list update set_widgets].
    rewrite Hl.
    rewrite (live_update (update ide ref cleared) ref cleared chosen
               (nth_error_update ide ref p cleared Hp)
               ltac:(rewrite Hchosen; reflexivity)).
    rewrite Hchosen. cbn [items]. now rewrite Hsize.
  - unfold selected_index. cbn [completion_list update set_widgets].
    rewrite Hl.
    rewrite (live_update (update ide ref cleared) ref cleared chosen
               (nth_error_update ide ref p cleared Hp)
               ltac:(rewrite Hchosen; reflexivity)).
    rewrite Hchosen. reflexivity.
Qed.

Lemma navigate_down_times :
  forall times ide n i,
    candidate_count ide = Some n ->
    selected_index ide = Some i ->
    0 <= i < n ->
    exists ide',
      navigate_times "Down" times ide = Returned ide'
      /\ candidate_count ide' = Some n
      /\ selected_index ide' = Some (Z.min (n - 1) (i + Z.of_nat times)).
Proof.
  induction times as [|times IH]; intros ide n i Hn Hi Hrange.
  - exists ide. cbn [navigate_times]. repeat split; auto.
    rewrite Hi. f_equal. lia.
  - destruct (navigate_step ide n i "Down" 1 Hn Hi Hrange eq_refl)
      as (ide1 & Hrun & Hn1 & Hi1).
    destruct (IH ide1 n (clamp n (i + 1)) Hn1 Hi1) as (ide' & Hrun' & Hn' & Hi').
    { unfold clamp. lia. }
    exists ide'. cbn [navigate_times]. rewrite Hrun. cbn [bind].
    repeat split; auto.
    rewrite Hi'. f_equal. unfold clamp. lia.
Qed.

Lemma fold_insert_end :
  forall completions lb,
    fold_left (fun lb comp => popup_insert_end lb (entry_text comp))
              completions lb
    = {| destroyed := destroyed lb;
         items := items lb ++ map entry_text completions;
         selection := selection lb |}.
Proof.
  induction completions as [|c completions IH]; intros lb.
  - cbn. rewrite app_nil_r. destruct lb; reflexivity.
  - cbn [fold_left map]. rewrite IH. unfold popup_insert_end, append.
    cbn [destroyed items selection]. now rewrite <- app_assoc.
Qed.

Lemma destroy_length :
  forall ide ref,
    List.length (widgets (destroy ide ref)) = List.length (widgets ide).
Proof.
  intros ide ref. unfold destroy.
  destruct (nth_error (widgets ide) ref); [|reflexivity].
  unfold update. cbn [widgets set_widgets]. apply replace_nth_length.
Qed.

Lemma nth_error_at_end {A : Type} :
  forall (l : list A) x, nth_error (l ++ [x]) (List.length l) = Some x.
Proof.
  intros l x. rewrite nth_error_app2 by lia.
  now rewrite Nat.sub_diag.
Qed.

(** [show_completions] with candidates opens a list of them with the
    first one selected. *)
Lemma show_completions_opens :
  forall ide editor completions,
    current_editor ide = Some editor ->
    jedi_complete (get_all editor) (fst (tw_insert editor))
                  (snd (tw_insert editor)) = Returned completions ->
    completions <> [] ->
    candidate_count (show_completions ide)
    = Some (Z.of_nat (List.length completions))
    /\ selected_index (show_completions ide) = Some 0
    /\ current_completions (show_completions ide) = completions
    /\ completion_window (show_completions ide)
       = completion_list (show_completions ide).
Proof.
  intros ide editor completions He Hj Hne.
  unfold show_completions. rewrite He, Hj.
  destruct completions as [|c completions]; [contradiction|].
  set (cs := c :: completions) in *.
  set (ide1 := match completion_window ide with
               | Some w => destroy ide w
               | None => ide
               end).
  rewrite fold_insert_end. cbn [destroyed items selection app].
  assert (Hpos : (0 <? Z.of_nat (List.length (map entry_text cs))) = true)
    by (apply Z.ltb_lt; unfold cs; cbn [map List.length]; lia).
  rewrite Hpos.
  unfold popup_select_set. cbn [items]. rewrite Hpos.
  change (0 <=? 0) with true. cbn [andb].
  cbn [destroyed selection insert_sorted].
  unfold candidate_count, selected_index, live.
  cbn [completion_list completion_window current_completions widgets
       set_current_completions set_completion_list set_completion_window
       set_widgets].
  rewrite nth_error_at_end. cbn [destroyed items selection hd_error].
  rewrite length_map. auto.
Qed.

(** ** The claims on the completion session *)

(** C7.  A session opened with [n >= 1] candidates has the first one
    selected.  From an entry [i] of the open list, a call of
    [_navigate_completions] selects [i - 1] for [Up], [i + 1] for
    [Down], [i - 5] for [Prior] (page up) and [i + 5] for [Next] (page
    down), clamped into [[0, n - 1]].  So [n - 1] calls with [Down]
    reach the entry [n - 1], and one more stays there. *)
Theorem navigation_clamped :
  forall ide editor completions,
    current_editor ide = Some editor ->
    jedi_complete (get_all editor) (fst (tw_insert editor))
                  (snd (tw_insert editor)) = Returned completions ->
    completions <> [] ->
    let n := Z.of_nat (List.length completions) in
    let opened := show_completions ide in
    candidate_count opened = Some n
    /\ selected_index opened = Some 0
    /\ (forall st i keysym d,
           candidate_count st = Some n ->
           selected_index st = Some i ->
           0 <= i < n ->
           move_of keysym = Some d ->
           exists st',
             _navigate_completions keysym st = Returned st'
             /\ candidate_count st' = Some n
             /\ selected_index st' = Some (clamp n (i + d)))
    /\ (exists last_entry,
           navigate_times "Down" (List.length completions - 1) opened
           = Returned last_entry
           /\ selected_index last_entry = Some (n - 1)
           /\ exists after,
               _navigate_completions "Down" last_entry = Returned after
               /\ selected_index after = Some (n - 1)).
Proof.
  intros ide editor completions He Hj Hne n opened.
  destruct (show_completions_opens ide editor completions He Hj Hne)
    as (Hn & Hi & _ & _).
  fold opened in Hn, Hi. fold n in Hn.
  assert (Hpos : 1 <= n).
  { unfold n. destruct completions; [contradiction|].
    cbn [List.length]. lia. }
  split; [exact Hn|]. split; [exact Hi|]. split.
  - intros st i keysym d. apply navigate_step.
  - destruct (navigate_down_times (List.length completions - 1) opened n 0
                Hn Hi ltac:(lia))
      as (last_entry & Hrun & Hn' & Hi').
    assert (E : Z.min (n - 1) (0 + Z.of_nat (List.length completions - 1))
                = n - 1) by (unfold n; lia).
    rewrite E in Hi'.
    exists last_entry. split; [exact Hrun|]. split; [exact Hi'|].
    destruct (navigate_step last_entry n (n - 1) "Down" 1 Hn' Hi'
                ltac:(lia) eq_refl)
      as (after & Hrun2 & _ & Hi2).
    exists after. split; [exact Hrun2|].
    rewrite Hi2. f_equal. unfold clamp. lia.
Qed.

(** ** Slices of a line *)

Lemma take_length :
  forall n s, (n <= String.length s)%nat -> String.length (take n s) = n.
Proof.
  induction n as [|n IH]; intros [|c s] H; cbn [take String.length] in *;
    try reflexivity; try lia.
  rewrite IH; [reflexivity | lia].
Qed.

Lemma take_drop :
  forall n s, (take n s ++ drop n s)%string = s.
Proof.
  induction n as [|n IH]; intros [|c s]; cbn [take drop String.append];
    try reflexivity.
  now rewrite IH.
Qed.

Lemma take_append :
  forall a b, take (String.length a) (a ++ b)%string = a.
Proof.
  induction a as [|c a IH]; intros b; cbn [String.length String.append take].
  - destruct b; reflexivity.
  - now rewrite IH.
Qed.

Lemma drop_append :
  forall a b, drop (String.length a) (a ++ b)%string = b.
Proof.
  induction a as [|c a IH]; intros b; cbn [String.length String.append drop].
  - destruct b; reflexivity.
  - apply IH.
Qed.

Lemma get_take :
  forall n s j, (j < n)%nat -> String.get j (take n s) = String.get j s.
Proof.
  induction n as [|n IH]; intros s j H; [lia|].
  destruct s as [|c s]; [reflexivity|].
  cbn [take]. destruct j as [|j]; [reflexivity|].
  cbn [String.get]. apply IH. lia.
Qed.

Lemma get_in_range :
  forall s j, (j < String.length s)%nat -> exists ch, String.get j s = Some ch.
Proof.
  induction s as [|c s IH]; intros j H; cbn [String.length] in H; [lia|].
  destruct j as [|j]; [now exists c|].
  cbn [String.get]. apply IH. lia.
Qed.

(** ** The start of the word *)

Lemma in_underscore :
  forall ch, contains (String ch EmptyString) "_" = Ascii.eqb ch "_".
Proof.
  intros ch. cbn [contains String.prefix].
  destruct (ascii_dec ch "_") as [->|Hne]; [reflexivity|].
  symmetry. cbn [orb]. now apply Ascii.eqb_neq.
Qed.

Lemma word_test :
  forall ch,
    (negb (isalnum ch) && negb (contains (String ch EmptyString) "_"))%bool
    = negb (is_word_char ch).
Proof.
  intros ch. rewrite in_underscore. unfold is_word_char.
  now rewrite negb_orb.
Qed.

Lemma rev_seq_succ :
  forall k, rev (seq 0 (S k)) = k :: rev (seq 0 k).
Proof.
  intros k. rewrite seq_S, rev_app_distr. reflexivity.
Qed.

(** The loop stops at the start of the longest run of identifier
    characters that ends at the caret. *)
Lemma scan_word_start_spec :
  forall line k,
    (k <= String.length line)%nat ->
    let start := scan_word_start line (rev (seq 0 k)) k in
    (start <= k)%nat
    /\ (forall j, (start <= j < k)%nat ->
          exists ch, String.get j line = Some ch /\ is_word_char ch = true)
    /\ (start = 0%nat
        \/ exists ch,
            String.get (start - 1) line = Some ch /\ is_word_char ch = false).
Proof.
  intros line. induction k as [|k IH]; intros Hk.
  - cbn. repeat split; auto. intros j Hj. lia.
  - rewrite rev_seq_succ. cbn [scan_word_start].
    destruct (get_in_range line k ltac:(lia)) as [ch Hch].
    rewrite Hch, word_test.
    destruct (is_word_char ch) eqn:Hw; cbn [negb].
    + destruct (IH ltac:(lia)) as (Hle & Hrun & Hstop).
      split; [lia|]. split; [|exact Hstop].
      intros j Hj. destruct (Nat.eq_dec j k) as [->|Hne].
      * now exists ch.
      * apply Hrun. lia.
    + split; [lia|]. split; [intros j Hj; lia|].
      right. exists ch. now rewrite Nat.sub_succ, Nat.sub_0_r.
Qed.

Lemma find_word_start_spec :
  forall line,
    (find_word_start line <= String.length line)%nat
    /\ (forall j, (find_word_start line <= j < String.length line)%nat ->
          exists ch, String.get j line = Some ch /\ is_word_char ch = true)
    /\ (find_word_start line = 0%nat
        \/ exists ch,
            String.get (find_word_start line - 1) line = Some ch
            /\ is_word_char ch = false).
Proof.
  intros line. apply (scan_word_start_spec line (String.length line)). lia.
Qed.

(** ** Editing one line of the text widget *)

Lemma split_at_nth :
  forall (lines : list string) k,
    (k < List.length lines)%nat ->
    lines = firstn k lines ++ nth k lines EmptyString :: skipn (S k) lines.
Proof.
  induction lines as [|x lines IH]; intros k Hk; cbn [List.length] in Hk.
  - lia.
  - destruct k as [|k]; [reflexivity|].
    cbn [firstn nth skipn app]. f_equal. apply IH. lia.
Qed.

Lemma nth_middle_line :
  forall (before after : list string) line k,
    List.length before = k ->
    nth k (before ++ line :: after) EmptyString = line.
Proof.
  intros before after line k <-. rewrite app_nth2 by lia.
  now rewrite Nat.sub_diag.
Qed.

Lemma firstn_middle_line :
  forall (before after : list string) line k,
    List.length before = k ->
    firstn k (before ++ line :: after) = before.
Proof.
  intros before after line k <-.
  rewrite firstn_app, Nat.sub_diag, firstn_all. cbn [firstn].
  apply app_nil_r.
Qed.

Lemma skipn_middle_line :
  forall (before after : list string) line k,
    List.length before = k ->
    skipn (S k) (before ++ line :: after) = after.
Proof.
  intros before after line k <-. rewrite skipn_app, skipn_all2 by lia.
  replace (S (List.length before) - List.length before)%nat with 1%nat by lia.
  reflexivity.
Qed.

Lemma replace_nth_middle_line :
  forall (before after : list string) line line' k,
    List.length before = k ->
    replace_nth k line' (before ++ line :: after) = before ++ line' :: after.
Proof.
  induction before as [|x before IH]; intros after line line' k <-.
  - reflexivity.
  - cbn [List.length app replace_nth]. f_equal. now apply IH.
Qed.

Lemma append_assoc :
  forall a b c : string, ((a ++ b) ++ c)%string = (a ++ b ++ c)%string.
Proof.
  induction a as [|x a IH]; intros b c; cbn [String.append];
    [reflexivity | now rewrite IH].
Qed.

Lemma contains_char_cons :
  forall ch c s,
    contains (String ch EmptyString) (String c s)
    = (Ascii.eqb ch c || contains (String ch EmptyString) s)%bool.
Proof.
  intros ch c s. cbn [contains String.prefix].
  destruct (ascii_dec ch c) as [->|Hne].
  - rewrite Ascii.eqb_refl. destruct s; reflexivity.
  - apply Ascii.eqb_neq in Hne. now rewrite Hne.
Qed.

Lemma contains_char_append :
  forall ch a b,
    contains (String ch EmptyString) (a ++ b)%string
    = (contains (String ch EmptyString) a
       || contains (String ch EmptyString) b)%bool.
Proof.
  intros ch a b. induction a as [|x a IH].
  - reflexivity.
  - cbn [String.append]. rewrite !contains_char_cons, IH.
    now rewrite orb_assoc.
Qed.

Lemma contains_char_take :
  forall ch n s,
    contains (String ch EmptyString) s = false ->
    contains (String ch EmptyString) (take n s) = false.
Proof.
  intros ch. induction n as [|n IH]; intros [|c s] H; try reflexivity.
  cbn [take]. rewrite contains_char_cons in H |- *.
  apply orb_false_iff in H. destruct H as [Hc Hs].
  now rewrite Hc, (IH s Hs).
Qed.

Lemma contains_char_drop :
  forall ch n s,
    contains (String ch EmptyString) s = false ->
    contains (String ch EmptyString) (drop n s) = false.
Proof.
  intros ch. induction n as [|n IH]; intros [|c s] H; try assumption.
  cbn [drop]. rewrite contains_char_cons in H.
  apply orb_false_iff in H. destruct H as [_ Hs]. now apply IH.
Qed.

(** A text without a newline is one piece. *)
Lemma split_nl_from_one_piece :
  forall s cur,
    contains (String nl EmptyString) s = false ->
    split_nl_from cur s = [(cur ++ s)%string].
Proof.
  induction s as [|c s IH]; intros cur H.
  - cbn [split_nl_from]. f_equal.
    induction cur as [|x cur IHcur]; cbn [String.append];
      [reflexivity | now rewrite <- IHcur].
  - cbn [contains String.prefix] in H. apply orb_false_iff in H.
    destruct H as [Hc Hs].
    cbn [split_nl_from].
    destruct (Ascii.eqb c nl) eqn:E.
    + apply Ascii.eqb_eq in E. subst c.
      destruct (ascii_dec nl nl) as [_|F]; [|now elim F].
      destruct s; discriminate.
    + rewrite (IH _ Hs), append_assoc. reflexivity.
Qed.

(** Deleting the columns from [start] up to [stop] of a line and then
    inserting a text at [start] is applying the span. *)
Lemma delete_then_insert :
  forall editor l start stop text,
    (1 <= l <= List.length (tw_lines editor))%nat ->
    (stop <= String.length (line_at (tw_lines editor) l))%nat ->
    (start <= stop)%nat ->
    tw_lines (text_insert (text_delete editor (l, start) (l, stop))
                          (l, start) text)
    = apply_span (tw_lines editor)
        {| span_line := l; startColumn := start; endColumn := stop;
           insertText := text |}.
Proof.
  intros editor l start stop text Hl Hstop Hstart.
  destruct l as [|k]; [lia|].
  set (lines := tw_lines editor) in *.
  set (old := nth k lines EmptyString).
  set (before := firstn k lines).
  set (after := skipn (S k) lines).
  set (merged := (take start old ++ drop stop old)%string).
  assert (Hk : (k < List.length lines)%nat) by lia.
  assert (Hold : line_at lines (S k) = old).
  { unfold line_at, old. now rewrite Nat.sub_succ, Nat.sub_0_r. }
  rewrite Hold in Hstop.
  assert (Hbefore : List.length before = k).
  { unfold before. rewrite length_firstn. lia. }
  assert (Hdeleted : tw_lines (text_delete editor (S k, start) (S k, stop))
                     = before ++ merged :: after).
  { unfold text_delete, index_lt. cbn [fst snd].
    rewrite Nat.ltb_irrefl, Nat.eqb_refl. cbn [orb andb].
    destruct (Nat.ltb start stop) eqn:E.
    - cbn [tw_lines]. fold lines. rewrite Hold, Nat.sub_succ, Nat.sub_0_r.
      reflexivity.
    - apply Nat.ltb_ge in E. assert (start = stop) by lia. subst stop.
      fold lines. unfold merged. rewrite take_drop.
      apply split_at_nth. exact Hk. }
  unfold text_insert, apply_span. cbn [tw_lines fst snd span_line startColumn
                                        endColumn insertText].
  rewrite Hdeleted. fold lines. rewrite Hold.
  rewrite Nat.sub_succ, Nat.sub_0_r. fold before after.
  unfold line_at. rewrite Nat.sub_succ, Nat.sub_0_r.
  rewrite (nth_middle_line before after merged k Hbefore).
  rewrite (firstn_middle_line before after merged k Hbefore).
  rewrite (skipn_middle_line before after merged k Hbefore).
  assert (Htake : String.length (take start old) = start)
    by (apply take_length; lia).
  unfold merged.
  rewrite <- Htake at 1 3.
  rewrite take_append, drop_append. reflexivity.
Qed.

Lemma current_editor_destroy :
  forall ide ref, current_editor (destroy ide ref) = current_editor ide.
Proof.
  intros ide ref. unfold destroy.
  destruct (nth_error (widgets ide) ref); reflexivity.
Qed.

Lemma completion_list_destroy :
  forall ide ref, completion_list (destroy ide ref) = completion_list ide.
Proof.
  intros ide ref. unfold destroy.
  destruct (nth_error (widgets ide) ref); reflexivity.
Qed.

(** A call on the list box of a destroyed window raises [TclError]. *)
Lemma live_destroy :
  forall ide ref p,
    nth_error (widgets ide) ref = Some p ->
    live (destroy ide ref) ref = Raised TclError.
Proof.
  intros ide ref p Hp. unfold destroy. rewrite Hp.
  unfold live. rewrite (nth_error_update ide ref p _ Hp). reflexivity.
Qed.

(** What [insert_completion] does in state [Populated]. *)
Lemma insert_completion_populated :
  forall ide editor i completion,
    selected_index ide = Some i ->
    list_index (current_completions ide) i = Returned completion ->
    current_editor ide = Some editor ->
    let cursor_pos := tw_insert editor in
    let start_pos :=
      (fst cursor_pos, find_word_start (get_line_upto editor cursor_pos)) in
    let edited :=
      set_current_editor ide
        (text_insert (text_delete editor start_pos cursor_pos) start_pos
                     (comp_complete completion)) in
    insert_completion ide
    = Returned match completion_window ide with
               | Some w => set_completion_window (destroy edited w) None
               | None => edited
               end.
Proof.
  intros ide editor i completion Hi Hc He.
  destruct (selected_index_inv ide i Hi) as (ref & p & rest & Hl & Hp & Hlive & Hs).
  unfold insert_completion, curselection, live.
  rewrite Hl, Hp, Hlive. cbn [bind]. rewrite Hs, Hc. cbn [bind].
  rewrite He. reflexivity.
Qed.

(** C8, as the code has it.  Outside [Populated], [insert_completion]
    raises no [InvalidStateError].  With no list box (state [Empty]), or
    with a list box in which no entry is selected, it returns and
    changes nothing.  With a list box whose window was destroyed it
    fails with Tk's [TclError]; that is so for a second call after a
    call that inserted a completion and closed the popup. *)
Theorem accept_outside_populated :
  (forall ide,
      populated ide = false ->
      match completion_list ide with
      | None => insert_completion ide = Returned ide
      | Some ref =>
          match live ide ref with
          | Returned _ => insert_completion ide = Returned ide
          | Raised _ => insert_completion ide = Raised TclError
          end
      end)
  /\ (forall ide ide',
         populated ide = true ->
         completion_window ide = completion_list ide ->
         insert_completion ide = Returned ide' ->
         populated ide' = false
         /\ insert_completion ide' = Raised TclError).
Proof.
  split.
  - intros ide H. unfold populated, selected_index in H.
    unfold insert_completion, curselection.
    destruct (completion_list ide) as [ref|]; [|reflexivity].
    unfold live in *.
    destruct (nth_error (widgets ide) ref) as [p|]; [|reflexivity].
    destruct (destroyed p); [reflexivity|].
    cbn [bind]. destruct (selection p); [reflexivity | discriminate].
  - intros ide ide' H Hw Hrun. unfold populated in H.
    destruct (selected_index ide) as [i|] eqn:Hi; [|discriminate].
    destruct (selected_index_inv ide i Hi)
      as (ref & p & rest & Hl & Hp & Hlive & Hs).
    destruct (list_index (current_completions ide) i) as [completion|e] eqn:Hc.
    2:{ unfold insert_completion, curselection, live in Hrun.
        rewrite Hl, Hp, Hlive in Hrun. cbn [bind] in Hrun.
        rewrite Hs, Hc in Hrun. discriminate. }
    destruct (current_editor ide) as [editor|] eqn:He.
    2:{ unfold insert_completion, curselection, live in Hrun.
        rewrite Hl, Hp, Hlive in Hrun. cbn [bind] in Hrun.
        rewrite Hs, Hc in Hrun. cbn [bind] in Hrun. rewrite He in Hrun.
        discriminate. }
    rewrite (insert_completion_populated ide editor i completion Hi Hc He)
      in Hrun.
    rewrite Hw, Hl in Hrun. injection Hrun as <-.
    set (edited := set_current_editor ide _).
    assert (Hp' : nth_error (widgets edited) ref = Some p) by exact Hp.
    assert (Hdead : live (set_completion_window (destroy edited ref) None) ref
                    = Raised TclError)
      by exact (live_destroy edited ref p Hp').
    assert (Hlist : completion_list
                      (set_completion_window (destroy edited ref) None)
                    = Some ref).
    { cbn [completion_list set_completion_window].
      rewrite completion_list_destroy. exact Hl. }
    split.
    + unfold populated, selected_index. rewrite Hlist, Hdead. reflexivity.
    + unfold insert_completion, curselection. rewrite Hlist, Hdead.
      reflexivity.
Qed.

(** ** Further facts *)

(** With hints enabled, [show_educational_hints] shows the hints for the
    text of the editor and the line under the caret. *)
Lemma show_educational_hints_enabled :
  forall ide editor,
    current_editor ide = Some editor ->
    educational_hints ide = true ->
    show_educational_hints ide
    = hints_for (get_all editor) (get_line editor (fst (tw_insert editor))).
Proof.
  intros ide editor He Hon. unfold show_educational_hints.
  now rewrite He, Hon.
Qed.

(** A branching statement put into a function body makes the complexity
    grow by the decision points of the statement, at least one. *)
Lemma complexity_grows :
  forall stmt tree tree',
    add_statement stmt tree tree' ->
    is_branching stmt = true ->
    statement_shaped stmt = true ->
    _calculate_complexity tree'
    = _calculate_complexity tree + _calculate_complexity stmt
    /\ _calculate_complexity tree < _calculate_complexity tree'.
Proof.
  intros stmt tree tree' Hadd Hb Hs.
  rewrite !calculate_complexity_preorder.
  rewrite (add_statement_complexity stmt tree tree' Hadd).
  pose proof (branching_complexity stmt Hb Hs). lia.
Qed.

(** ** More on [CodeAnalyzer] *)

Lemma append_empty_r : forall s : string, (s ++ EmptyString)%string = s.
Proof.
  induction s as [|c s IH]; cbn [String.append]; [reflexivity | now rewrite IH].
Qed.

Lemma splitlines_from_line :
  forall line cur rest,
    has_linebreak line = false ->
    splitlines_from cur (line ++ String nl rest)
    = (cur ++ line)%string :: splitlines_from EmptyString rest.
Proof.
  induction line as [|c line IH]; intros cur rest H.
  - cbn [String.append splitlines_from]. rewrite is_linebreak_nl, nl_is_not_cr.
    rewrite append_empty_r. destruct rest; reflexivity.
  - cbn [has_linebreak] in H. apply orb_false_iff in H. destruct H as [Hc Hl].
    cbn [String.append splitlines_from]. rewrite Hc.
    rewrite (IH _ rest Hl), append_assoc. reflexivity.
Qed.

(** Round trip: the text the editor hands over splits back into the
    lines of the editor, when no line holds a line boundary. *)
Lemma splitlines_get_all :
  forall editor,
    tw_lines editor <> [] ->
    Forall (fun line => has_linebreak line = false) (tw_lines editor) ->
    splitlines (get_all editor) = tw_lines editor.
Proof.
  intros editor. unfold get_all, text_of_lines, splitlines.
  induction (tw_lines editor) as [|line lines IH]; intros Hne Hall;
    [contradiction|].
  inversion Hall as [|? ? Hline Hrest]; subst.
  destruct lines as [|line2 lines].
  - cbn [join]. now rewrite splitlines_from_line.
  - change (join (String nl EmptyString) (line :: line2 :: lines))
      with (line ++ String nl (join (String nl EmptyString) (line2 :: lines)))%string.
    rewrite append_assoc. cbn [String.append].
    rewrite (splitlines_from_line _ _ _ Hline). cbn [String.append].
    f_equal. apply IH; [discriminate | exact Hrest].
Qed.

(** X1.  For the text of an editor that parses, with no line boundary
    inside a line, the count under ["loc"] is the number of lines of
    the editor. *)
Theorem loc_is_editor_lines :
  forall editor tree,
    ast_parse (get_all editor) = Returned tree ->
    tw_lines editor <> [] ->
    Forall (fun line => has_linebreak line = false) (tw_lines editor) ->
    exists metrics,
      analyze_code (get_all editor) = Returned metrics
      /\ dict_get metrics "loc"
         = Some (Z.of_nat (List.length (tw_lines editor))).
Proof.
  intros editor tree H Hne Hall. unfold analyze_code. rewrite H.
  cbn [bind try_except]. eexists. split; [reflexivity|].
  cbn [dict_get String.eqb]. now rewrite (splitlines_get_all editor Hne Hall).
Qed.

(** X2.  For a text that parses, the count of comment lines is at most
    the count of lines, and neither is negative. *)
Theorem comments_at_most_loc :
  forall code_text tree,
    ast_parse code_text = Returned tree ->
    exists metrics comments loc,
      analyze_code code_text = Returned metrics
      /\ dict_get metrics "comments" = Some comments
      /\ dict_get metrics "loc" = Some loc
      /\ 0 <= comments <= loc.
Proof.
  intros code_text tree H. unfold analyze_code. rewrite H.
  cbn [bind try_except]. do 3 eexists.
  split; [reflexivity|]. split; [reflexivity|]. split; [reflexivity|].
  unfold _count_comments, count.
  pose proof (filter_length_le
                (fun line => startswith (strip line) "#")
                (splitlines code_text)).
  lia.
Qed.

Lemma complexity_of_nonneg :
  forall tree, module_shaped tree = true -> 0 <= complexity_of tree.
Proof.
  intros tree H.
  destruct (module_shaped_preorder tree H) as [Hroot Hrest].
  unfold complexity_of. rewrite (preorder_children tree) in Hrest |- *.
  cbn [tl] in Hrest. cbn [map]. rewrite sumZ_cons.
  assert (R : decision_points tree = 0).
  { destruct tree as [cls fields]. unfold is_Module in Hroot.
    cbn [node_class] in Hroot. destruct cls; try discriminate. reflexivity. }
  rewrite R.
  assert (0 <= sumZ (map decision_points
                       (flat_map preorder (iter_child_nodes tree)))).
  { apply sumZ_nonneg. rewrite Forall_map.
    eapply Forall_impl; [|exact Hrest].
    intros m Hm. now apply decision_points_nonneg. }
  lia.
Qed.

(** X3.  For a text that parses, the dict has the seven keys, in the
    order of the program, and no count is negative. *)
Theorem counts_nonnegative :
  forall code_text tree,
    ast_parse code_text = Returned tree ->
    module_shaped tree = true ->
    exists metrics,
      analyze_code code_text = Returned metrics
      /\ map fst metrics = metric_keys
      /\ forall key value, dict_get metrics key = Some value -> 0 <= value.
Proof.
  intros code_text tree H Hshape. unfold analyze_code. rewrite H.
  cbn [bind try_except]. eexists. split; [reflexivity|].
  split; [reflexivity|].
  intros key value Hget. cbn [dict_get] in Hget.
  repeat match type of Hget with
         | (if ?b then _ else _) = _ =>
             destruct b;
             [injection Hget as <-;
              try apply count_nonneg; try lia | ]
         end.
  - rewrite count_docstrings_count. apply count_nonneg.
  - rewrite calculate_complexity_preorder. now apply complexity_of_nonneg.
  - discriminate.
Qed.

(** X4.  The complexity composes: that of a tree is what its root adds
    plus the complexities of the children of the root, whatever the
    order in which [ast.walk] meets the nodes. *)
Theorem complexity_composes :
  forall n,
    _calculate_complexity n
    = decision_points n
      + sumZ (map _calculate_complexity (iter_child_nodes n)).
Proof.
  intros [cls fields].
  rewrite calculate_complexity_preorder, complexity_of_node.
  f_equal. unfold iter_child_nodes. cbn [node_fields].
  induction fields as [|f fields IH]; [reflexivity|].
  cbn [map flat_map]. rewrite map_app, sumZ_app, sumZ_cons, IH.
  f_equal. f_equal. apply map_ext. intros c.
  symmetry. apply calculate_complexity_preorder.
Qed.

(** ** [update_metrics] *)



(** X5.  When the text of the editor does not parse, [update_metrics]
    shows no row and no suggestion and then fails: the chart takes the
    maximum of no values, a [ValueError]. *)
Theorem update_metrics_unparsable :
  forall ide editor e,
    current_editor ide = Some editor ->
    ast_parse (get_all editor) = Raised e ->
    update_metrics ide
    = Some (Returned {| panel_rows := [];
                        panel_suggestions := [];
                        panel_chart := Raised ValueError |}).
Proof.
  intros ide editor e He H. unfold update_metrics, analyze_code.
  rewrite He, H. reflexivity.
Qed.


(** X7.  For the text of an editor that parses, with no line boundary
    inside a line, the large-file suggestion is shown exactly when the
    editor has more than 300 lines. *)
Theorem large_file_suggestion :
  forall ide editor tree,
    current_editor ide = Some editor ->
    ast_parse (get_all editor) = Returned tree ->
    tw_lines editor <> [] ->
    Forall (fun line => has_linebreak line = false) (tw_lines editor) ->
    exists panel,
      update_metrics ide = Some (Returned panel)
      /\ (In LARGE_FILE (panel_suggestions panel)
          <-> (300 < List.length (tw_lines editor))%nat).
Proof.
  intros ide editor tree He H Hne Hall. unfold update_metrics, analyze_code.
  rewrite He, H. cbn [bind try_except].
  set (metrics := [("loc", _); _; _; _; _; _; _]).
  assert (Hloc : dict_get_default metrics "loc" 0
                 = Z.of_nat (List.length (tw_lines editor))).
  { unfold dict_get_default, metrics. cbn [dict_get String.eqb].
    now rewrite (splitlines_get_all editor Hne Hall). }
  eexists. split; [reflexivity|].
  cbn [panel_suggestions]. rewrite Hloc. unfold append.
  destruct (300 <? Z.of_nat (List.length (tw_lines editor))) eqn:E.
  - apply Z.ltb_lt in E. split; [intros _; lia|]. intros _.
    apply in_or_app. right. now left.
  - apply Z.ltb_ge in E. split; [|lia].
    intros Hin.
    destruct (10 <? dict_get_default metrics "complexity" 0); cbn in Hin.
    + destruct Hin as [F|[]]. discriminate.
    + contradiction.
Qed.

(** ** The popup over a sequence of events *)

Lemma nth_error_replace_nth_other {A : Type} :
  forall n m (x : A) l,
    n <> m -> nth_error (replace_nth n x l) m = nth_error l m.
Proof.
  induction n as [|n IH]; intros [|m] x [|y l] H; cbn [replace_nth nth_error];
    try reflexivity; try (now elim H).
  apply IH. intros E. apply H. now f_equal.
Qed.

Lemma live_in_destroy :
  forall ide w ref p,
    nth_error (widgets (destroy ide w)) ref = Some p ->
    destroyed p = false ->
    ref <> w /\ nth_error (widgets ide) ref = Some p.
Proof.
  intros ide w ref p Hp Hlive. unfold destroy in Hp.
  destruct (nth_error (widgets ide) w) as [q|] eqn:Hq.
  - unfold update in Hp. cbn [widgets set_widgets] in Hp.
    destruct (Nat.eq_dec w ref) as [->|Hne].
    + rewrite (nth_error_replace_nth ref _ q _ Hq) in Hp.
      injection Hp as <-. discriminate.
    + rewrite (nth_error_replace_nth_other w ref _ _ Hne) in Hp. auto.
  - split; [|exact Hp]. intros ->. congruence.
Qed.

Lemma no_live_after_destroy :
  forall ide w ref p,
    session_invariant ide ->
    completion_window ide = Some w ->
    nth_error (widgets (destroy ide w)) ref = Some p ->
    destroyed p = true.
Proof.
  intros ide w ref p Hinv Hw Hp.
  destruct (destroyed p) eqn:Hlive; [reflexivity|].
  destruct (live_in_destroy ide w ref p Hp Hlive) as [Hne Hold].
  destruct (Hinv ref p Hold Hlive) as (Hw' & _).
  congruence.
Qed.

Lemma no_live_without_window :
  forall ide ref p,
    session_invariant ide ->
    completion_window ide = None ->
    nth_error (widgets ide) ref = Some p ->
    destroyed p = true.
Proof.
  intros ide ref p Hinv Hw Hp.
  destruct (destroyed p) eqn:Hlive; [reflexivity|].
  destruct (Hinv ref p Hp Hlive) as (Hw' & _). congruence.
Qed.

Lemma invariant_of_no_live :
  forall ide,
    (forall ref p, nth_error (widgets ide) ref = Some p -> destroyed p = true) ->
    session_invariant ide.
Proof.
  intros ide H ref p Hp Hlive. rewrite (H ref p Hp) in Hlive. discriminate.
Qed.

Lemma drop_completion_window_closed :
  forall ide,
    session_invariant ide ->
    forall ref p,
      nth_error (widgets (drop_completion_window ide)) ref = Some p ->
      destroyed p = true.
Proof.
  intros ide Hinv ref p Hp. unfold drop_completion_window in Hp.
  destruct (completion_window ide) as [w|] eqn:Hw.
  - cbn [widgets set_completion_window] in Hp.
    eapply no_live_after_destroy; eassumption.
  - eapply no_live_without_window; eassumption.
Qed.

Lemma show_completions_invariant :
  forall ide, session_invariant ide -> session_invariant (show_completions ide).
Proof.
  intros ide Hinv. unfold show_completions.
  destruct (current_editor ide) as [editor|]; [|exact Hinv].
  destruct (jedi_complete (get_all editor) (fst (tw_insert editor))
                          (snd (tw_insert editor))) as [completions|e].
  2:{ apply invariant_of_no_live. now apply drop_completion_window_closed. }
  destruct completions as [|c completions]; [exact Hinv|].
  set (cs := c :: completions).
  set (ide1 := match completion_window ide with
               | Some w => destroy ide w
               | None => ide
               end).
  assert (Hdead : forall ref p,
             nth_error (widgets ide1) ref = Some p -> destroyed p = true).
  { intros ref p Hp. unfold ide1 in Hp.
    destruct (completion_window ide) as [w|] eqn:Hw.
    - eapply no_live_after_destroy; eassumption.
    - eapply no_live_without_window; eassumption. }
  rewrite fold_insert_end. cbn [destroyed items selection app].
  assert (Hpos : (0 <? Z.of_nat (List.length (map entry_text cs))) = true)
    by (apply Z.ltb_lt; unfold cs; cbn [map List.length]; lia).
  rewrite Hpos. unfold popup_select_set. cbn [items]. rewrite Hpos.
  change (0 <=? 0) with true. cbn [andb destroyed selection insert_sorted].
  intros ref p Hp Hlive.
  cbn [widgets set_current_completions set_completion_list
       set_completion_window set_widgets] in Hp.
  destruct (Nat.lt_ge_cases ref (List.length (widgets ide1))) as [Hlt|Hge].
  - rewrite nth_error_app1 in Hp by exact Hlt.
    rewrite (Hdead ref p Hp) in Hlive. discriminate.
  - rewrite nth_error_app2 in Hp by exact Hge.
    destruct (ref - List.length (widgets ide1))%nat as [|k] eqn:Hk.
    2:{ cbn [nth_error] in Hp. destruct k; discriminate. }
    cbn [nth_error] in Hp. injection Hp as <-.
    assert (ref = List.length (widgets ide1)) by lia. subst ref.
    unfold popup_consistent.
    cbn [completion_window completion_list current_completions items
         selection set_current_completions set_completion_list
         set_completion_window set_widgets].
    split; [reflexivity|]. split; [reflexivity|]. split; [reflexivity|].
    exists 0. split; [reflexivity|].
    cbn [List.length]. lia.
Qed.


Lemma map_replace_nth {A B : Type} (f : A -> B) :
  forall n (x y : A) l,
    nth_error l n = Some y -> f x = f y -> map f (replace_nth n x l) = map f l.
Proof.
  induction n as [|n IH]; intros x y [|z l] H E; try discriminate.
  - cbn in H. injection H as ->. cbn. now rewrite E.
  - cbn [replace_nth map]. f_equal. eapply IH; eassumption.
Qed.

Lemma selection_only_refl : forall ide, selection_only ide ide.
Proof. intros ide. repeat split. Qed.

Lemma selection_only_trans :
  forall a b c, selection_only a b -> selection_only b c -> selection_only a c.
Proof.
  intros a b c (H1 & H2 & H3 & H4 & H5 & H6) (K1 & K2 & K3 & K4 & K5 & K6).
  repeat split; congruence.
Qed.

Lemma selection_only_update :
  forall ide ref p p',
    nth_error (widgets ide) ref = Some p ->
    destroyed p' = destroyed p ->
    items p' = items p ->
    selection_only ide (update ide ref p').
Proof.
  intros ide ref p p' Hp Hd Hi. unfold selection_only, update.
  cbn [current_editor educational_hints completion_window completion_list
       current_completions widgets set_widgets].
  repeat split.
  apply (map_replace_nth _ ref p' p); [exact Hp | now rewrite Hd, Hi].
Qed.

Lemma popup_select_set_keeps :
  forall p i,
    destroyed (popup_select_set p i) = destroyed p
    /\ items (popup_select_set p i) = items p.
Proof.
  intros p i. unfold popup_select_set.
  destruct ((0 <=? i) && (i <? Z.of_nat (List.length (items p))))%bool;
    split; reflexivity.
Qed.

Lemma navigate_keeps :
  forall keysym ide ide',
    _navigate_completions keysym ide = Returned ide' ->
    selection_only ide ide'.
Proof.
  intros keysym ide ide' H. unfold _navigate_completions in H.
  destruct (completion_list ide) as [ref|];
    [|injection H as <-; apply selection_only_refl].
  unfold curselection, size, live in H.
  destruct (nth_error (widgets ide) ref) as [p|] eqn:Hp; [|discriminate].
  destruct (destroyed p) eqn:Hlive; [discriminate|].
  cbn [bind] in H.
  destruct (selection p) as [|current rest].
  - unfold select_set, live in H. rewrite Hp, Hlive in H. cbn [bind] in H.
    injection H as <-.
    destruct (popup_select_set_keeps p 0) as [Hd Hi].
    now apply (selection_only_update ide ref p).
  - match type of H with
    | match ?choice with _ => _ end = _ => destruct choice as [new|]
    end; [|injection H as <-; apply selection_only_refl].
    unfold select_clear_all, live in H. rewrite Hp, Hlive in H.
    cbn [bind] in H. unfold select_set in H.
    rewrite (live_update ide ref p (popup_select_clear_all p) Hp Hlive) in H.
    cbn [bind] in H. injection H as <-.
    eapply selection_only_trans.
    + apply (selection_only_update ide ref p (popup_select_clear_all p) Hp);
        reflexivity.
    + destruct (popup_select_set_keeps (popup_select_clear_all p) new)
        as [Hd Hi].
      apply (selection_only_update _ ref (popup_select_clear_all p));
        [now apply (nth_error_update ide ref p) | exact Hd | exact Hi].
Qed.

Lemma navigate_times_keeps :
  forall keysym times ide ide',
    navigate_times keysym times ide = Returned ide' ->
    selection_only ide ide'.
Proof.
  intros keysym. induction times as [|times IH]; intros ide ide' H.
  - cbn in H. injection H as <-. apply selection_only_refl.
  - cbn [navigate_times] in H.
    destruct (_navigate_completions keysym ide) as [ide1|e] eqn:H1;
      [|discriminate].
    cbn [bind] in H.
    eapply selection_only_trans;
      [exact (navigate_keeps keysym ide ide1 H1)
      | exact (IH ide1 ide' H)].
Qed.


(** The state after a call of [_navigate_completions] on a live list
    with a selected entry. *)
Lemma navigate_result :
  forall ide ref p i rest keysym,
    completion_list ide = Some ref ->
    nth_error (widgets ide) ref = Some p ->
    destroyed p = false ->
    selection p = i :: rest ->
    0 <= i < Z.of_nat (List.length (items p)) ->
    _navigate_completions keysym ide
    = Returned
        match move_of keysym with
        | Some d =>
            update (update ide ref (popup_select_clear_all p)) ref
              {| destroyed := false; items := items p;
                 selection := [clamp (Z.of_nat (List.length (items p))) (i + d)] |}
        | None => ide
        end.
Proof.
  intros ide ref p i rest keysym Hl Hp Hlive Hs Hrange.
  set (n := Z.of_nat (List.length (items p))) in *.
  assert (Hrun : forall new d,
             new = clamp n (i + d) ->
             (ide0 <- select_clear_all ide ref ;; select_set ide0 ref new)
             = Returned
                 (update (update ide ref (popup_select_clear_all p)) ref
                    {| destroyed := false; items := items p;
                       selection := [clamp n (i + d)] |})).
  { intros new d ->. unfold select_clear_all, live.
    rewrite Hp, Hlive. cbn [bind]. unfold select_set.
    rewrite (live_update ide ref p (popup_select_clear_all p) Hp Hlive).
    cbn [bind]. do 2 f_equal.
    unfold popup_select_set, popup_select_clear_all.
    cbn [items destroyed selection]. fold n. rewrite Hlive.
    replace ((0 <=? clamp n (i + d)) && (clamp n (i + d) <? n))%bool
      with true; [reflexivity|].
    symmetry. apply andb_true_iff.
    split; [apply Z.leb_le | apply Z.ltb_lt]; unfold clamp; lia. }
  unfold _navigate_completions, curselection, size, live.
  rewrite Hl, Hp, Hlive. cbn [bind]. rewrite Hs. fold n.
  unfold move_of.
  destruct (String.eqb keysym "Up"); [apply Hrun; unfold clamp; lia|].
  destruct (String.eqb keysym "Down"); [apply Hrun; unfold clamp; lia|].
  destruct (String.eqb keysym "Prior"); [apply Hrun; unfold clamp; lia|].
  destruct (String.eqb keysym "Next"); [apply Hrun; unfold clamp; lia|].
  reflexivity.
Qed.

Lemma navigate_invariant :
  forall keysym ide ide',
    session_invariant ide ->
    _navigate_completions keysym ide = Returned ide' ->
    session_invariant ide'.
Proof.
  intros keysym ide ide' Hinv H.
  destruct (completion_list ide) as [ref|] eqn:Hl.
  2:{ unfold _navigate_completions in H. rewrite Hl in H.
      now injection H as <-. }
  destruct (nth_error (widgets ide) ref) as [p|] eqn:Hp.
  2:{ unfold _navigate_completions, curselection, live in H.
      rewrite Hl, Hp in H. discriminate. }
  destruct (destroyed p) eqn:Hlive.
  { unfold _navigate_completions, curselection, live in H.
    rewrite Hl, Hp, Hlive in H. discriminate. }
  destruct (Hinv ref p Hp Hlive) as (Hw & _ & Hitems & i & Hs & Hrange).
  rewrite (navigate_result ide ref p i [] keysym Hl Hp Hlive Hs Hrange) in H.
  injection H as <-.
  destruct (move_of keysym) as [d|]; [|exact Hinv].
  set (chosen := {| destroyed := false; items := items p;
                    selection := [_] |}).
  intros r q Hq Hqlive.
  destruct (Nat.eq_dec ref r) as [<-|Hne].
  - rewrite (nth_error_update (update ide ref (popup_select_clear_all p)) ref
               (popup_select_clear_all p) chosen
               (nth_error_update ide ref p _ Hp)) in Hq.
    injection Hq as <-.
    unfold popup_consistent.
    cbn [completion_window completion_list current_completions update
         set_widgets items selection chosen].
    split; [exact Hw|]. split; [exact Hl|]. split; [exact Hitems|].
    eexists. split; [reflexivity|]. unfold clamp. lia.
  - unfold update in Hq. cbn [widgets set_widgets] in Hq.
    rewrite !(nth_error_replace_nth_other ref r) in Hq by exact Hne.
    destruct (Hinv r q Hq Hqlive) as (Hw' & _). congruence.
Qed.

Lemma set_current_editor_invariant :
  forall ide editor,
    session_invariant ide -> session_invariant (set_current_editor ide editor).
Proof.
  intros ide editor Hinv ref p Hp Hlive. exact (Hinv ref p Hp Hlive).
Qed.

Lemma insert_completion_invariant :
  forall ide ide',
    session_invariant ide ->
    insert_completion ide = Returned ide' ->
    session_invariant ide'.
Proof.
  intros ide ide' Hinv H. unfold insert_completion in H.
  destruct (completion_list ide) as [ref|] eqn:Hl;
    [|now injection H as <-].
  unfold curselection, live in H.
  destruct (nth_error (widgets ide) ref) as [p|] eqn:Hp; [|discriminate].
  destruct (destroyed p) eqn:Hlive; [discriminate|].
  cbn [bind] in H.
  destruct (selection p) as [|first rest]; [now injection H as <-|].
  destruct (list_index (current_completions ide) first) as [completion|e];
    [|discriminate].
  cbn [bind] in H.
  destruct (current_editor ide) as [editor|]; [|discriminate].
  injection H as <-.
  destruct (Hinv ref p Hp Hlive) as (Hw & _).
  cbn [completion_window set_current_editor]. rewrite Hw.
  apply invariant_of_no_live. intros r q Hq.
  cbn [widgets set_completion_window] in Hq.
  eapply (no_live_after_destroy (set_current_editor ide _) ref r q);
    [apply set_current_editor_invariant, Hinv | exact Hw | exact Hq].
Qed.

Lemma on_escape_invariant :
  forall ide ide',
    session_invariant ide ->
    on_escape ide = Returned ide' ->
    session_invariant ide'.
Proof.
  intros ide ide' Hinv H. unfold on_escape in H.
  destruct (completion_window ide) as [w|] eqn:Hw; [|discriminate].
  injection H as <-.
  apply invariant_of_no_live. intros r q Hq.
  eapply no_live_after_destroy; eassumption.
Qed.

Lemma handle_invariant :
  forall ev ide, session_invariant ide -> session_invariant (handle ev ide).
Proof.
  intros ev ide Hinv. unfold handle.
  destruct (dispatch ev ide) as [ide'|e] eqn:H; [|exact Hinv].
  destruct ev; cbn [dispatch] in H.
  - injection H as <-. now apply show_completions_invariant.
  - eapply navigate_invariant; eassumption.
  - eapply insert_completion_invariant; eassumption.
  - eapply insert_completion_invariant; eassumption.
  - eapply on_escape_invariant; eassumption.
Qed.

(** X8.  Over any sequence of the events bound to the completion code,
    from a state where this holds: at most one popup is alive, both
    [completion_window] and [completion_list] refer to it, its entries
    are those of the completions kept, in the order of the provider,
    and exactly one entry of it is selected. *)
Theorem session_invariant_kept :
  forall events ide,
    session_invariant ide ->
    session_invariant (run events ide)
    /\ forall ref ref' p p',
        nth_error (widgets (run events ide)) ref = Some p ->
        nth_error (widgets (run events ide)) ref' = Some p' ->
        destroyed p = false ->
        destroyed p' = false ->
        ref = ref'.
Proof.
  intros events ide Hinv.
  assert (Hrun : session_invariant (run events ide)).
  { unfold run. revert ide Hinv.
    induction events as [|ev events IH]; intros ide Hinv; [exact Hinv|].
    cbn [fold_left]. apply IH. now apply handle_invariant. }
  split; [exact Hrun|].
  intros ref ref' p p' Hp Hp' Hlive Hlive'.
  destruct (Hrun ref p Hp Hlive) as (Hw & _).
  destruct (Hrun ref' p' Hp' Hlive') as (Hw' & _).
  congruence.
Qed.

(** X9.  A run of key events on the list, whatever the keys, changes
    nothing but the selection: the text and the caret of the editor,
    the completions kept, the two references, and the entries and the
    liveness of every list box stay as they are. *)
Theorem list_keys_change_selection_only :
  forall keysyms ide, selection_only ide (run (map ListKey keysyms) ide).
Proof.
  unfold run. induction keysyms as [|keysym keysyms IH]; intros ide.
  - apply selection_only_refl.
  - cbn [map fold_left].
    eapply selection_only_trans; [|apply IH].
    unfold handle. cbn [dispatch].
    destruct (_navigate_completions keysym ide) as [ide'|e] eqn:H.
    + exact (navigate_keeps keysym ide ide' H).
    + apply selection_only_refl.
Qed.


Lemma list_index_in_range {A : Type} :
  forall (l : list A) i,
    0 <= i < Z.of_nat (List.length l) ->
    exists x, list_index l i = Returned x /\ nth_error l (Z.to_nat i) = Some x.
Proof.
  intros l i Hi. unfold list_index.
  replace (i <? 0) with false by (symmetry; apply Z.ltb_ge; lia).
  replace ((0 <=? i) && (i <? Z.of_nat (List.length l)))%bool with true
    by (symmetry; apply andb_true_iff;
        split; [apply Z.leb_le | apply Z.ltb_lt]; lia).
  destruct (nth_error l (Z.to_nat i)) as [x|] eqn:E.
  - now exists x.
  - apply nth_error_None in E. lia.
Qed.

Lemma all_destroyed_not_populated :
  forall ide,
    (forall ref p, nth_error (widgets ide) ref = Some p -> destroyed p = true) ->
    populated ide = false.
Proof.
  intros ide H. unfold populated, selected_index, live.
  destruct (completion_list ide) as [ref|]; [|reflexivity].
  destruct (nth_error (widgets ide) ref) as [p|] eqn:Hp; [|reflexivity].
  now rewrite (H ref p Hp).
Qed.

(** X10.  In a state kept by the invariant, a [Populated] session over
    an editor always accepts: the selected entry has its completion
    (no [IndexError]), the call returns, and afterwards no popup is
    alive and the session is not [Populated]. *)
Theorem accept_succeeds_when_populated :
  forall ide editor,
    session_invariant ide ->
    populated ide = true ->
    current_editor ide = Some editor ->
    exists i completion ide',
      selected_index ide = Some i
      /\ nth_error (current_completions ide) (Z.to_nat i) = Some completion
      /\ insert_completion ide = Returned ide'
      /\ populated ide' = false
      /\ completion_window ide' = None
      /\ forall ref p,
          nth_error (widgets ide') ref = Some p -> destroyed p = true.
Proof.
  intros ide editor Hinv Hpop He. unfold populated in Hpop.
  destruct (selected_index ide) as [i|] eqn:Hi; [|discriminate].
  destruct (selected_index_inv ide i Hi)
    as (ref & p & rest & Hl & Hp & Hlive & Hs).
  destruct (Hinv ref p Hp Hlive) as (Hw & _ & Hitems & j & Hs' & Hrange).
  rewrite Hs in Hs'. injection Hs' as -> ->.
  rewrite Hitems, length_map in Hrange.
  destruct (list_index_in_range (current_completions ide) j Hrange)
    as (completion & Hc & Hnth).
  exists j, completion. eexists.
  split; [reflexivity|]. split; [exact Hnth|].
  split; [exact (insert_completion_populated ide editor j completion Hi Hc He)|].
  rewrite Hw.
  assert (Hdead : forall r q,
             nth_error
               (widgets
                  (set_completion_window
                     (destroy (set_current_editor ide
                                 (text_insert
                                    (text_delete editor
                                       (fst (tw_insert editor),
                                        find_word_start
                                          (get_line_upto editor (tw_insert editor)))
                                       (tw_insert editor))
                                    (fst (tw_insert editor),
                                     find_word_start
                                       (get_line_upto editor (tw_insert editor)))
                                    (comp_complete completion))) ref) None)) r
             = Some q -> destroyed q = true).
  { intros r q Hq. cbn [widgets set_completion_window] in Hq.
    eapply (no_live_after_destroy (set_current_editor ide _) ref r q);
      [apply set_current_editor_invariant, Hinv | exact Hw | exact Hq]. }
  split; [now apply all_destroyed_not_populated|].
  split; [reflexivity | exact Hdead].
Qed.

(** X11.  On a list of [n] entries, [Down] and then [Up] comes back to
    the entry it started from, unless that was the last one; [Up] and
    then [Down] comes back unless it was the first one. *)
Theorem navigate_round_trip :
  forall ide n i,
    candidate_count ide = Some n ->
    selected_index ide = Some i ->
    0 <= i < n ->
    (i < n - 1 ->
     exists st st',
       _navigate_completions "Down" ide = Returned st
       /\ _navigate_completions "Up" st = Returned st'
       /\ selected_index st' = Some i)
    /\ (0 < i ->
        exists st st',
          _navigate_completions "Up" ide = Returned st
          /\ _navigate_completions "Down" st = Returned st'
          /\ selected_index st' = Some i).
Proof.
  intros ide n i Hn Hi Hrange. split; intros Hedge.
  - destruct (navigate_step ide n i "Down" 1 Hn Hi Hrange eq_refl)
      as (st & Hrun & Hn1 & Hi1).
    destruct (navigate_step st n (clamp n (i + 1)) "Up" (-1) Hn1 Hi1
                ltac:(unfold clamp; lia) eq_refl)
      as (st' & Hrun' & _ & Hi2).
    exists st, st'. split; [exact Hrun|]. split; [exact Hrun'|].
    rewrite Hi2. f_equal. unfold clamp. lia.
  - destruct (navigate_step ide n i "Up" (-1) Hn Hi Hrange eq_refl)
      as (st & Hrun & Hn1 & Hi1).
    destruct (navigate_step st n (clamp n (i + -1)) "Down" 1 Hn1 Hi1
                ltac:(unfold clamp; lia) eq_refl)
      as (st' & Hrun' & _ & Hi2).
    exists st, st'. split; [exact Hrun|]. split; [exact Hrun'|].
    rewrite Hi2. f_equal. unfold clamp. lia.
Qed.

Lemma show_completions_keeps_editor :
  forall ide, current_editor (show_completions ide) = current_editor ide.
Proof.
  intros ide. unfold show_completions.
  destruct (current_editor ide) as [editor|] eqn:He; [|exact He].
  destruct (jedi_complete _ _ _) as [[|c completions]|e].
  - exact He.
  - cbn [current_editor set_current_completions set_completion_list
         set_completion_window set_widgets].
    destruct (completion_window ide); [|exact He].
    now rewrite current_editor_destroy.
  - unfold drop_completion_window.
    destruct (completion_window ide); [|exact He].
    cbn [current_editor set_completion_window].
    now rewrite current_editor_destroy.
Qed.

(** X12.  From the request to the insertion: after [show_completions]
    with candidates, [k] times [Down] and an accept, the word before
    the caret is replaced by the text of the candidate number
    [min k (n - 1)] in the order of the provider. *)
Theorem request_navigate_accept :
  forall ide editor completions k,
    current_editor ide = Some editor ->
    valid_caret editor ->
    jedi_complete (get_all editor) (fst (tw_insert editor))
                  (snd (tw_insert editor)) = Returned completions ->
    completions <> [] ->
    exists completion st ide' editor',
      nth_error completions (Nat.min k (List.length completions - 1))
      = Some completion
      /\ navigate_times "Down" k (show_completions ide) = Returned st
      /\ insert_completion st = Returned ide'
      /\ current_editor ide' = Some editor'
      /\ tw_lines editor'
         = apply_span (tw_lines editor)
             {| span_line := fst (tw_insert editor);
                startColumn :=
                  find_word_start (get_line_upto editor (tw_insert editor));
                endColumn := snd (tw_insert editor);
                insertText := comp_complete completion |}.
Proof.
  intros ide editor completions k He [Hline Hcol] Hj Hne.
  destruct (show_completions_opens ide editor completions He Hj Hne)
    as (Hn & Hi & Hcs & _).
  set (n := Z.of_nat (List.length completions)) in *.
  assert (Hpos : 1 <= n).
  { unfold n. destruct completions; [contradiction|]. cbn [List.length]. lia. }
  destruct (navigate_down_times k (show_completions ide) n 0 Hn Hi ltac:(lia))
    as (st & Hrun & _ & Hsel).
  destruct (navigate_times_keeps "Down" k _ st Hrun)
    as (Hed & _ & _ & _ & Hkept & _).
  rewrite show_completions_keeps_editor, He in Hed.
  rewrite Hcs in Hkept.
  set (i := Z.min (n - 1) (0 + Z.of_nat k)) in *.
  assert (Hrange : 0 <= i < Z.of_nat (List.length (current_completions st))).
  { rewrite Hkept. fold n. unfold i. lia. }
  destruct (list_index_in_range (current_completions st) i Hrange)
    as (completion & Hc & Hnth).
  exists completion, st. eexists.
  exists (text_insert
            (text_delete editor
               (fst (tw_insert editor),
                find_word_start (get_line_upto editor (tw_insert editor)))
               (tw_insert editor))
            (fst (tw_insert editor),
             find_word_start (get_line_upto editor (tw_insert editor)))
            (comp_complete completion)).
  split.
  { rewrite Hkept in Hnth. rewrite <- Hnth. f_equal. unfold i, n. lia. }
  split; [exact Hrun|].
  split; [exact (insert_completion_populated st editor i completion Hsel Hc Hed)|].
  split.
  { destruct (completion_window st) as [w|]; [|reflexivity].
    cbn [current_editor set_completion_window].
    now rewrite current_editor_destroy. }
  rewrite (surjective_pairing (tw_insert editor)) at 2.
  apply delete_then_insert; [exact Hline | exact Hcol |].
  unfold get_line_upto.
  pose proof (proj1 (find_word_start_spec
                       (take (snd (tw_insert editor))
                          (line_at (tw_lines editor) (fst (tw_insert editor))))))
    as Hle.
  now rewrite (take_length _ _ Hcol) in Hle.
Qed.

(** X13.  When the provider raises, [show_completions] leaves no popup
    alive, whatever was open before: the window is destroyed and
    forgotten, the session is not [Populated], and the editor is as it
    was.  (With no candidates, by contrast, an open popup stays.) *)
Theorem provider_failure_closes :
  forall ide editor e,
    session_invariant ide ->
    current_editor ide = Some editor ->
    jedi_complete (get_all editor) (fst (tw_insert editor))
                  (snd (tw_insert editor)) = Raised e ->
    populated (show_completions ide) = false
    /\ completion_window (show_completions ide) = None
    /\ current_editor (show_completions ide) = Some editor
    /\ forall ref p,
        nth_error (widgets (show_completions ide)) ref = Some p ->
        destroyed p = true.
Proof.
  intros ide editor e Hinv He Hj.
  assert (Hdead : forall ref p,
             nth_error (widgets (show_completions ide)) ref = Some p ->
             destroyed p = true).
  { unfold show_completions. rewrite He, Hj.
    now apply drop_completion_window_closed. }
  split; [now apply all_destroyed_not_populated|].
  split.
  - unfold show_completions. rewrite He, Hj. unfold drop_completion_window.
    destruct (completion_window ide) eqn:Hw; [reflexivity | exact Hw].
  - split; [|exact Hdead].
    now rewrite show_completions_keeps_editor.
Qed.


(** ** The caret, and the word under it, after an edit *)

Lemma split_nl_one_piece :
  forall s, contains (String nl EmptyString) s = false -> split_nl s = [s].
Proof.
  intros s H. unfold split_nl. now rewrite split_nl_from_one_piece.
Qed.

Lemma replace_line :
  forall (lines : list string) l line,
    (1 <= l <= List.length lines)%nat ->
    firstn (l - 1) lines ++ line :: skipn l lines
    = replace_nth (l - 1) line lines.
Proof.
  intros lines l line Hl. destruct l as [|k]; [lia|].
  rewrite Nat.sub_succ, Nat.sub_0_r.
  assert (Hk : (k < List.length lines)%nat) by lia. clear Hl.
  revert k Hk. induction lines as [|x lines IH]; intros k Hk;
    cbn [List.length] in Hk; [lia|].
  destruct k as [|k]; [reflexivity|].
  cbn [firstn skipn app replace_nth]. f_equal. apply IH. lia.
Qed.

(** Inserting a text without newline into a line without newline. *)
Lemma text_insert_in_line :
  forall w l c text,
    (1 <= l <= List.length (tw_lines w))%nat ->
    contains (String nl EmptyString) (line_at (tw_lines w) l) = false ->
    contains (String nl EmptyString) text = false ->
    tw_lines (text_insert w (l, c) text)
    = replace_nth (l - 1)
        (take c (line_at (tw_lines w) l) ++ text
         ++ drop c (line_at (tw_lines w) l))%string
        (tw_lines w)
    /\ (tw_insert w = (l, c) ->
        tw_insert (text_insert w (l, c) text) = (l, c + String.length text)%nat).
Proof.
  intros w l c text Hl Hold Htext. unfold text_insert. cbn [tw_lines tw_insert fst snd].
  split.
  - rewrite split_nl_one_piece.
    + cbn [app]. now apply replace_line.
    + rewrite !contains_char_append, Htext.
      rewrite (contains_char_take nl _ _ Hold).
      now rewrite (contains_char_drop nl _ _ Hold).
  - intros Hm. rewrite Hm. unfold index_lt. cbn [fst snd].
    rewrite !Nat.ltb_irrefl, Nat.eqb_refl. cbn [orb andb].
    now rewrite (split_nl_one_piece text Htext).
Qed.

Lemma text_delete_caret :
  forall w l start stop,
    tw_insert w = (l, stop) ->
    (start <= stop)%nat ->
    tw_insert (text_delete w (l, start) (l, stop)) = (l, start).
Proof.
  intros w l start stop Hm Hle. unfold text_delete, index_le, index_lt.
  cbn [fst snd]. rewrite Nat.ltb_irrefl, Nat.eqb_refl. cbn [orb andb].
  destruct (Nat.ltb start stop) eqn:E.
  - cbn [tw_insert]. rewrite Hm. cbn [fst snd].
    rewrite !Nat.ltb_irrefl, Nat.eqb_refl, E. reflexivity.
  - apply Nat.ltb_ge in E. rewrite Hm. f_equal. lia.
Qed.

Lemma text_delete_in_line :
  forall w l start stop,
    (1 <= l <= List.length (tw_lines w))%nat ->
    (start <= stop)%nat ->
    tw_lines (text_delete w (l, start) (l, stop))
    = replace_nth (l - 1)
        (take start (line_at (tw_lines w) l)
         ++ drop stop (line_at (tw_lines w) l))%string
        (tw_lines w).
Proof.
  intros w l start stop Hl Hle. unfold text_delete, index_lt.
  cbn [fst snd]. rewrite Nat.ltb_irrefl, Nat.eqb_refl. cbn [orb andb].
  destruct (Nat.ltb start stop) eqn:E.
  - cbn [tw_lines]. now apply replace_line.
  - apply Nat.ltb_ge in E. assert (start = stop) by lia. subst stop.
    rewrite take_drop, <- replace_line by exact Hl.
    assert (Hsplit := split_at_nth (tw_lines w) (l - 1) ltac:(lia)).
    replace (S (l - 1)) with l in Hsplit by lia. exact Hsplit.
Qed.

Lemma line_at_replace_nth :
  forall (lines : list string) l line,
    (1 <= l <= List.length lines)%nat ->
    line_at (replace_nth (l - 1) line lines) l = line.
Proof.
  intros lines l line Hl. unfold line_at.
  rewrite <- replace_line by exact Hl.
  apply nth_middle_line. rewrite length_firstn. lia.
Qed.

(** The editor after the deletion and the insertion of
    [insert_completion]. *)
Lemma accept_editor :
  forall editor l c text,
    tw_insert editor = (l, c) ->
    (1 <= l <= List.length (tw_lines editor))%nat ->
    (c <= String.length (line_at (tw_lines editor) l))%nat ->
    contains (String nl EmptyString) (line_at (tw_lines editor) l) = false ->
    contains (String nl EmptyString) text = false ->
    let old := line_at (tw_lines editor) l in
    let start := find_word_start (take c old) in
    let editor' :=
      text_insert (text_delete editor (l, start) (l, c)) (l, start) text in
    (start <= c)%nat
    /\ tw_insert editor' = (l, start + String.length text)%nat
    /\ line_at (tw_lines editor') l
       = (take start old ++ text ++ drop c old)%string.
Proof.
  intros editor l c text Hm Hl Hc Hold Htext old start editor'.
  assert (Hstart : (start <= c)%nat).
  { pose proof (proj1 (find_word_start_spec (take c old))) as Hle.
    now rewrite (take_length c old Hc) in Hle. }
  set (deleted := text_delete editor (l, start) (l, c)).
  assert (Hlines : tw_lines deleted
                   = replace_nth (l - 1) (take start old ++ drop c old)%string
                       (tw_lines editor))
    by (apply text_delete_in_line; assumption).
  assert (Hlen : List.length (tw_lines deleted) = List.length (tw_lines editor))
    by (rewrite Hlines; apply replace_nth_length).
  assert (Hline : line_at (tw_lines deleted) l
                  = (take start old ++ drop c old)%string)
    by (rewrite Hlines; now apply line_at_replace_nth).
  assert (Hclean : contains (String nl EmptyString)
                     (line_at (tw_lines deleted) l) = false).
  { rewrite Hline, contains_char_append.
    rewrite (contains_char_take nl _ _ Hold).
    now rewrite (contains_char_drop nl _ _ Hold). }
  destruct (text_insert_in_line deleted l start text
              ltac:(rewrite Hlen; exact Hl) Hclean Htext) as [Hins Hcaret].
  split; [exact Hstart|]. split.
  - apply Hcaret. now apply text_delete_caret.
  - unfold editor'. fold deleted. rewrite Hins.
    rewrite line_at_replace_nth by (rewrite Hlen; exact Hl).
    rewrite Hline.
    assert (Htake : String.length (take start old) = start)
      by (apply take_length; unfold old; lia).
    rewrite <- Htake at 1 3.
    now rewrite take_append, drop_append.
Qed.


Lemma length_of_append :
  forall a b : string,
    String.length (a ++ b)%string = (String.length a + String.length b)%nat.
Proof.
  induction a as [|c a IH]; intros b; cbn [String.append String.length];
    [reflexivity | now rewrite IH].
Qed.

Lemma get_append_left :
  forall a b j,
    (j < String.length a)%nat ->
    String.get j (a ++ b)%string = String.get j a.
Proof.
  induction a as [|c a IH]; intros b j H; cbn [String.length] in H; [lia|].
  cbn [String.append]. destruct j as [|j]; [reflexivity|].
  cbn [String.get]. apply IH. lia.
Qed.

Lemma get_append_right :
  forall a b j,
    String.get (String.length a + j) (a ++ b)%string = String.get j b.
Proof.
  induction a as [|c a IH]; intros b j; [reflexivity|].
  cbn [String.length String.append Nat.add String.get]. apply IH.
Qed.

Lemma all_word_chars_get :
  forall s j ch,
    all_word_chars s = true -> String.get j s = Some ch -> is_word_char ch = true.
Proof.
  induction s as [|c s IH]; intros j ch H Hget; [discriminate|].
  cbn [all_word_chars] in H. apply andb_true_iff in H. destruct H as [Hc Hs].
  destruct j as [|j]; cbn [String.get] in Hget.
  - now injection Hget as <-.
  - eapply IH; eassumption.
Qed.

Lemma all_word_chars_no_newline :
  forall s, all_word_chars s = true -> contains (String nl EmptyString) s = false.
Proof.
  induction s as [|c s IH]; intros H; [reflexivity|].
  cbn [all_word_chars] in H. apply andb_true_iff in H. destruct H as [Hc Hs].
  rewrite contains_char_cons, (IH Hs), orb_false_r.
  destruct (Ascii.eqb nl c) eqn:E; [|reflexivity].
  apply Ascii.eqb_eq in E. subst c. discriminate.
Qed.

(** The start of the word is the only column with the two properties
    of [find_word_start_spec]. *)
Lemma find_word_start_unique :
  forall line start,
    (start <= String.length line)%nat ->
    (forall j, (start <= j < String.length line)%nat ->
       exists ch, String.get j line = Some ch /\ is_word_char ch = true) ->
    (start = 0%nat
     \/ exists ch,
         String.get (start - 1) line = Some ch /\ is_word_char ch = false) ->
    find_word_start line = start.
Proof.
  intros line start Hle Hword Hstop.
  destruct (find_word_start_spec line) as (Hle' & Hword' & Hstop').
  destruct (Nat.lt_trichotomy (find_word_start line) start) as [Hlt|[Heq|Hgt]].
  - destruct Hstop as [Hz|(ch & Hch & Hw)]; [lia|].
    destruct (Hword' (start - 1)%nat ltac:(lia)) as (ch' & Hch' & Hw').
    congruence.
  - exact Heq.
  - destruct Hstop' as [Hz|(ch & Hch & Hw)]; [lia|].
    destruct (Hword (find_word_start line - 1)%nat ltac:(lia))
      as (ch' & Hch' & Hw').
    congruence.
Qed.

(** Putting identifier characters in place of the word keeps the start
    of the word. *)
Lemma word_start_stable :
  forall line text,
    all_word_chars text = true ->
    find_word_start (take (find_word_start line) line ++ text)
    = find_word_start line.
Proof.
  intros line text Htext.
  destruct (find_word_start_spec line) as (Hle & _ & Hstop).
  set (start := find_word_start line) in *.
  assert (Hlen : String.length (take start line) = start)
    by now apply take_length.
  apply find_word_start_unique.
  - rewrite length_of_append. lia.
  - intros j Hj. rewrite length_of_append, Hlen in Hj.
    replace j with (String.length (take start line) + (j - start))%nat by lia.
    rewrite get_append_right.
    destruct (get_in_range text (j - start) ltac:(lia)) as [ch Hch].
    exists ch. split; [exact Hch|].
    exact (all_word_chars_get text _ ch Htext Hch).
  - destruct Hstop as [Hz|(ch & Hch & Hw)]; [now left|].
    destruct (Nat.eq_dec start 0) as [Hz|Hnz]; [now left|].
    right. exists ch. split; [|exact Hw].
    rewrite get_append_left by lia.
    rewrite get_take by lia. exact Hch.
Qed.

(** What [insert_completion] leaves in the editor, for a line and a
    text without newline. *)
Lemma accept_result :
  forall ide editor i completion,
    selected_index ide = Some i ->
    list_index (current_completions ide) i = Returned completion ->
    current_editor ide = Some editor ->
    valid_caret editor ->
    let anchor := tw_insert editor in
    let line := line_at (tw_lines editor) (fst anchor) in
    let wordStart := find_word_start (take (snd anchor) line) in
    contains (String nl EmptyString) line = false ->
    contains (String nl EmptyString) (comp_complete completion) = false ->
    exists ide' editor',
      insert_completion ide = Returned ide'
      /\ current_editor ide' = Some editor'
      /\ tw_insert editor'
         = (fst anchor, wordStart + String.length (comp_complete completion))%nat
      /\ get_line_upto editor' (tw_insert editor')
         = (take wordStart line ++ comp_complete completion)%string
      /\ line_at (tw_lines editor') (fst anchor)
         = (take wordStart line ++ comp_complete completion
            ++ drop (snd anchor) line)%string.
Proof.
  intros ide editor i completion Hi Hc He [Hline Hcol] anchor line wordStart
         Hold Htext.
  pose proof (insert_completion_populated ide editor i completion Hi Hc He)
    as Hrun.
  cbv zeta in Hrun. unfold get_line_upto in Hrun.
  fold anchor in Hrun, Hline, Hcol. fold line in Hrun, Hcol.
  fold wordStart in Hrun.
  destruct (accept_editor editor (fst anchor) (snd anchor)
              (comp_complete completion)
              (surjective_pairing (tw_insert editor)) Hline Hcol Hold Htext)
    as (Hle & Hcaret & Hnew).
  fold line in Hcaret, Hnew, Hle. fold wordStart in Hcaret, Hnew, Hle.
  rewrite <- (surjective_pairing anchor) in Hcaret, Hnew.
  set (editor' := text_insert
                    (text_delete editor (fst anchor, wordStart) anchor)
                    (fst anchor, wordStart) (comp_complete completion)) in *.
  eexists. exists editor'.
  split; [exact Hrun|].
  split.
  { destruct (completion_window ide) as [w|]; [|reflexivity].
    cbn [current_editor set_completion_window].
    now rewrite current_editor_destroy. }
  split; [exact Hcaret|]. split; [|exact Hnew].
  unfold get_line_upto. rewrite Hcaret. cbn [fst snd]. rewrite Hnew.
  assert (Hlen : String.length (take wordStart line) = wordStart)
    by (apply take_length; lia).
  rewrite <- append_assoc.
  rewrite <- Hlen at 1. rewrite <- length_of_append.
  apply take_append.
Qed.

(** X14.  After an accept, for a line and a text without newline, the
    caret stands right after the inserted text, on the same line, and
    the line up to the caret is what stood before the word followed by
    the text. *)
Theorem accept_moves_caret :
  forall ide editor i completion,
    selected_index ide = Some i ->
    list_index (current_completions ide) i = Returned completion ->
    current_editor ide = Some editor ->
    valid_caret editor ->
    let anchor := tw_insert editor in
    let line := line_at (tw_lines editor) (fst anchor) in
    let wordStart := find_word_start (take (snd anchor) line) in
    contains (String nl EmptyString) line = false ->
    contains (String nl EmptyString) (comp_complete completion) = false ->
    exists ide' editor',
      insert_completion ide = Returned ide'
      /\ current_editor ide' = Some editor'
      /\ tw_insert editor'
         = (fst anchor, wordStart + String.length (comp_complete completion))%nat
      /\ get_line_upto editor' (tw_insert editor')
         = (take wordStart line ++ comp_complete completion)%string.
Proof.
  intros ide editor i completion Hi Hc He Hv anchor line wordStart Hold Htext.
  destruct (accept_result ide editor i completion Hi Hc He Hv Hold Htext)
    as (ide' & editor' & Hrun & Hed & Hcaret & Hupto & _).
  exists ide', editor'. auto.
Qed.

(** X15.  After the accept of a text of identifier characters, the word
    under the new caret starts where the replaced word started: asking
    for completions again replaces the same word. *)
Theorem accept_keeps_word_start :
  forall ide editor i completion,
    selected_index ide = Some i ->
    list_index (current_completions ide) i = Returned completion ->
    current_editor ide = Some editor ->
    valid_caret editor ->
    let anchor := tw_insert editor in
    let line := line_at (tw_lines editor) (fst anchor) in
    let wordStart := find_word_start (take (snd anchor) line) in
    contains (String nl EmptyString) line = false ->
    all_word_chars (comp_complete completion) = true ->
    exists ide' editor',
      insert_completion ide = Returned ide'
      /\ current_editor ide' = Some editor'
      /\ find_word_start (get_line_upto editor' (tw_insert editor'))
         = wordStart.
Proof.
  intros ide editor i completion Hi Hc He Hv anchor line wordStart Hold Htext.
  destruct (accept_result ide editor i completion Hi Hc He Hv Hold
              (all_word_chars_no_newline _ Htext))
    as (ide' & editor' & Hrun & Hed & _ & Hupto & _).
  exists ide', editor'. split; [exact Hrun|]. split; [exact Hed|].
  rewrite Hupto.
  fold anchor line wordStart.
  pose proof (word_start_stable (take (snd anchor) line)
                (comp_complete completion) Htext) as Hstable.
  fold wordStart in Hstable.
  assert (Hle : (wordStart <= snd anchor)%nat).
  { destruct Hv as [_ Hcol]. fold anchor line in Hcol.
    pose proof (proj1 (find_word_start_spec (take (snd anchor) line))) as Hle.
    now rewrite (take_length _ line Hcol) in Hle. }
  assert (Htt : take wordStart (take (snd anchor) line) = take wordStart line).
  { clear - Hle. revert Hle. generalize (snd anchor) as c. generalize line.
    induction wordStart as [|k IH]; intros s c Hle.
    - destruct s, c; reflexivity.
    - destruct c as [|c]; [lia|]. destruct s as [|x s]; [reflexivity|].
      cbn [take]. f_equal. apply IH. lia. }
  now rewrite Htt in Hstable.
Qed.


Lemma spaces_length :
  forall n, String.length (string_times " " n) = n.
Proof.
  induction n as [|n IH]; cbn [string_times String.append String.length];
    [reflexivity | now rewrite IH].
Qed.

Lemma spaces_get :
  forall n j ch, String.get j (string_times " " n) = Some ch -> ch = " "%char.
Proof.
  induction n as [|n IH]; intros j ch H; cbn [string_times String.append] in H.
  - destruct j; discriminate.
  - destruct j as [|j]; cbn [String.get] in H.
    + now injection H as <-.
    + eapply IH. exact H.
Qed.

Lemma spaces_no_newline :
  forall n, contains (String nl EmptyString) (string_times " " n) = false.
Proof.
  induction n as [|n IH]; cbn [string_times String.append]; [reflexivity|].
  now rewrite contains_char_cons, IH.
Qed.

(** X16.  [handle_tab] puts [tab_size] spaces, and never a tab
    character, at the caret: the line of the caret grows by them, the
    other lines stay, and the caret moves right by [tab_size]; a
    [tab_size] of zero or less changes nothing. *)
Theorem handle_tab_inserts_spaces :
  forall tab_size widget,
    valid_caret widget ->
    let l := fst (tw_insert widget) in
    let c := snd (tw_insert widget) in
    let old := line_at (tw_lines widget) l in
    let spaces := string_times " " (Z.to_nat tab_size) in
    contains (String nl EmptyString) old = false ->
    tw_lines (handle_tab tab_size widget)
    = replace_nth (l - 1) (take c old ++ spaces ++ drop c old)%string
        (tw_lines widget)
    /\ tw_insert (handle_tab tab_size widget) = (l, c + Z.to_nat tab_size)%nat
    /\ String.length spaces = Z.to_nat tab_size
    /\ (forall j ch, String.get j spaces = Some ch -> ch = " "%char)
    /\ (tab_size <= 0 ->
        tw_lines (handle_tab tab_size widget) = tw_lines widget).
Proof.
  intros tab_size widget [Hline Hcol] l c old spaces Hold.
  fold l in Hline, Hcol. fold c old in Hcol.
  destruct (text_insert_in_line widget l c spaces Hline Hold
              (spaces_no_newline _)) as [Hlines Hcaret].
  unfold handle_tab. rewrite (surjective_pairing (tw_insert widget)).
  fold l c spaces.
  split; [exact Hlines|]. split.
  { rewrite Hcaret by apply surjective_pairing.
    unfold spaces. now rewrite spaces_length. }
  split; [apply spaces_length|].
  split; [apply spaces_get|].
  intros Hneg. rewrite Hlines. unfold spaces.
  replace (Z.to_nat tab_size) with 0%nat by lia.
  cbn [string_times String.append]. rewrite take_drop.
  rewrite <- replace_line by exact Hline.
  assert (Hsplit := split_at_nth (tw_lines widget) (l - 1) ltac:(lia)).
  replace (S (l - 1)) with l in Hsplit by lia. now symmetry.
Qed.


(** ** [TerminalEmulator]: the history of commands *)

Lemma lstrip_all_space :
  forall s, all_space s = true -> lstrip s = EmptyString.
Proof.
  induction s as [|c s IH]; intros H; [reflexivity|].
  cbn [all_space] in H. apply andb_true_iff in H. destruct H as [Hc Hs].
  cbn [lstrip]. rewrite Hc. now apply IH.
Qed.

(** X17.  A command line of white space only is ignored by
    [execute_command]: no entry in the history, no process, nothing in
    the output. *)
Theorem blank_command_ignored :
  forall t, all_space (term_input t) = true -> execute_command t = t.
Proof.
  intros t H. unfold execute_command, strip.
  now rewrite (lstrip_all_space _ H).
Qed.

Lemma list_index_last {A : Type} :
  forall (l : list A) x,
    list_index (l ++ [x]) (Z.of_nat (List.length (l ++ [x])) - 1) = Returned x.
Proof.
  intros l x.
  destruct (list_index_in_range (l ++ [x])
              (Z.of_nat (List.length (l ++ [x])) - 1)) as (y & Hy & Hnth).
  { rewrite length_app. cbn [List.length]. lia. }
  rewrite Hy. f_equal.
  rewrite length_app in Hnth. cbn [List.length] in Hnth.
  replace (Z.to_nat (Z.of_nat (List.length l + 1) - 1)) with (List.length l)
    in Hnth by lia.
  rewrite nth_error_at_end in Hnth. now injection Hnth.
Qed.

(** X18.  After a command that is not blank, [<Up>] brings the command
    back into the input line, as it was run (stripped), and [<Down>]
    then leaves it there: there is no way down to the empty line. *)
Theorem execute_then_up_recalls :
  forall t,
    strip (term_input t) <> EmptyString ->
    let t1 := execute_command t in
    term_history t1 = term_history t ++ [strip (term_input t)]
    /\ term_history_index t1 = Z.of_nat (List.length (term_history t1))
    /\ term_input t1 = EmptyString
    /\ exists t2,
        history_up t1 = (t2, None)
        /\ term_input t2 = strip (term_input t)
        /\ term_history t2 = term_history t1
        /\ history_down t2 = (t2, None).
Proof.
  intros t Hcommand t1. unfold t1, execute_command.
  destruct (strip (term_input t)) as [|c command] eqn:E; [contradiction|].
  cbn [term_history term_history_index term_input].
  change (append (term_history t) (String c command))
    with (term_history t ++ [String c command]).
  split; [reflexivity|]. split; [reflexivity|]. split; [reflexivity|].
  set (history := term_history t ++ [String c command]).
  unfold history_up. cbn [term_history term_history_index term_input term_output].
  fold history.
  assert (Hpos : (0 <? Z.of_nat (List.length history)) = true).
  { apply Z.ltb_lt. unfold history. rewrite length_app. cbn [List.length]. lia. }
  assert (Hlast : list_index history (Z.of_nat (List.length history) - 1)
                  = Returned (String c command)) by apply list_index_last.
  rewrite Hpos, Hlast.
  eexists. split; [reflexivity|].
  cbn [term_input term_history]. split; [reflexivity|]. split; [reflexivity|].
  unfold history_down. cbn [term_history term_history_index]. fold history.
  now rewrite Z.ltb_irrefl.
Qed.

(** X19.  With the index within the history, none of the three handlers
    raises, each leaves the index within the history, and the two keys
    leave the history as it is. *)
Theorem history_index_in_range :
  forall t,
    0 <= term_history_index t <= Z.of_nat (List.length (term_history t)) ->
    (0 <= term_history_index (execute_command t)
       <= Z.of_nat (List.length (term_history (execute_command t))))
    /\ (exists t',
           history_up t = (t', None)
           /\ term_history t' = term_history t
           /\ 0 <= term_history_index t'
              <= Z.of_nat (List.length (term_history t')))
    /\ (exists t',
           history_down t = (t', None)
           /\ term_history t' = term_history t
           /\ 0 <= term_history_index t'
              <= Z.of_nat (List.length (term_history t'))).
Proof.
  intros t Hrange. split; [|split].
  - unfold execute_command.
    destruct (strip (term_input t)); [exact Hrange|].
    cbn [term_history term_history_index]. lia.
  - unfold history_up.
    destruct (0 <? term_history_index t) eqn:E;
      [|exists t; unfold left_by; auto].
    apply Z.ltb_lt in E.
    destruct (list_index_in_range (term_history t) (term_history_index t - 1)
                ltac:(lia)) as (command & Hc & _).
    rewrite Hc. eexists. split; [reflexivity|].
    cbn [term_history term_history_index]. split; [reflexivity | lia].
  - unfold history_down.
    destruct (term_history_index t
              <? Z.of_nat (List.length (term_history t)) - 1) eqn:E;
      [|exists t; unfold left_by; auto].
    apply Z.ltb_lt in E.
    destruct (list_index_in_range (term_history t) (term_history_index t + 1)
                ltac:(lia)) as (command & Hc & _).
    rewrite Hc. eexists. split; [reflexivity|].
    cbn [term_history term_history_index]. split; [reflexivity | lia].
Qed.

Lemma history_up_times_showing :
  forall times t,
    0 <= term_history_index t < Z.of_nat (List.length (term_history t)) ->
    list_index (term_history t) (term_history_index t)
    = Returned (term_input t) ->
    let t' := history_up_times times t in
    term_history t' = term_history t
    /\ term_history_index t'
       = Z.max 0 (term_history_index t - Z.of_nat times)
    /\ list_index (term_history t') (term_history_index t')
       = Returned (term_input t').
Proof.
  induction times as [|times IH]; intros t Hrange Hshow.
  - cbn [history_up_times]. split; [reflexivity|]. split; [lia | exact Hshow].
  - cbn [history_up_times]. unfold history_up.
    destruct (0 <? term_history_index t) eqn:E.
    + apply Z.ltb_lt in E.
      destruct (list_index_in_range (term_history t)
                  (term_history_index t - 1) ltac:(lia)) as (command & Hc & _).
      rewrite Hc. cbn [fst left_by].
      match goal with
      | |- context [history_up_times times ?u] =>
          destruct (IH u) as (Hh & Hi & Hs)
      end.
      * cbn [term_history term_history_index]. lia.
      * exact Hc.
      * cbn [term_history term_history_index] in Hh, Hi.
        split; [exact Hh|]. split; [rewrite Hi; lia | exact Hs].
    + apply Z.ltb_ge in E. cbn [fst left_by].
      destruct (IH t Hrange Hshow) as (Hh & Hi & Hs).
      split; [exact Hh|]. split; [rewrite Hi; lia | exact Hs].
Qed.

(** X20.  From a position within the history, [k >= 1] presses of
    [<Up>] show the command [k] places back, and stop at the oldest
    one. *)
Theorem history_up_walks_back :
  forall times t,
    1 <= term_history_index t <= Z.of_nat (List.length (term_history t)) ->
    (1 <= times)%nat ->
    let t' := history_up_times times t in
    term_history t' = term_history t
    /\ term_history_index t'
       = Z.max 0 (term_history_index t - Z.of_nat times)
    /\ list_index (term_history t) (term_history_index t')
       = Returned (term_input t').
Proof.
  intros times t Hrange Htimes.
  destruct times as [|times]; [lia|].
  cbn [history_up_times]. unfold history_up.
  replace (0 <? term_history_index t) with true
    by (symmetry; apply Z.ltb_lt; lia).
  destruct (list_index_in_range (term_history t) (term_history_index t - 1)
              ltac:(lia)) as (command & Hc & _).
  rewrite Hc. cbn [fst left_by].
  match goal with
  | |- context [history_up_times times ?u] =>
      destruct (history_up_times_showing times u) as (Hh & Hi & Hs)
  end.
  - cbn [term_history term_history_index]. lia.
  - exact Hc.
  - cbn [term_history term_history_index] in Hh, Hi.
    split; [exact Hh|]. split; [rewrite Hi; lia|].
    rewrite Hh in Hs. exact Hs.
Qed.


(** ** [VSCodeThemes.get_theme] *)

Lemma lookup_in {A : Type} :
  forall (d : list (string * A)) key v,
    lookup d key = Some v -> In v (map snd d).
Proof.
  induction d as [|[k x] d IH]; intros key v H; [discriminate|].
  cbn [lookup] in H. cbn [map snd].
  destruct (String.eqb k key).
  - injection H as <-. now left.
  - right. eapply IH. exact H.
Qed.

(** X21.  For every name, [get_theme] gives one of the four themes, the
    dark one for a name that is not a theme (such as ['dark'], the
    value of [config['theme']] at the start): so every key that
    [setup_theme] reads is there, and every colour is a [#] with six
    hexadecimal digits. *)
Theorem get_theme_complete :
  forall name,
    (lookup themes name = None ->
     Some (get_theme name) = lookup themes "Dark+ (default)")
    /\ (forall key,
          In key keys_read_by_setup_theme ->
          exists colour, lookup (get_theme name) key = Some colour)
    /\ List.length (get_theme name) = 12%nat
    /\ Forall (fun entry => is_colour (snd entry) = true) (get_theme name).
Proof.
  intros name.
  assert (Hcases : In (get_theme name) (map snd themes)).
  { unfold get_theme.
    destruct (lookup themes name) as [theme|] eqn:E.
    - now apply (lookup_in themes name).
    - left. reflexivity. }
  split.
  { intros Hnone. unfold get_theme. now rewrite Hnone. }
  assert (Hall : Forall
                   (fun theme =>
                      (forall key,
                          In key keys_read_by_setup_theme ->
                          exists colour, lookup theme key = Some colour)
                      /\ List.length theme = 12%nat
                      /\ Forall (fun entry => is_colour (snd entry) = true)
                                theme)
                   (map snd themes)).
  { repeat constructor;
      try (intros key Hin; cbn in Hin;
           repeat (destruct Hin as [<-|Hin]; [eexists; reflexivity|]);
           contradiction). }
  rewrite Forall_forall in Hall.
  exact (Hall (get_theme name) Hcases).
Qed.


(** ** When hints are shown *)

(** X22.  [show_educational_hints] has hints to show exactly when there
    is an editor, hints are enabled and the whole text of the editor
    parses: a line that matches a rule gets no hint while another line
    of the text is broken. *)
Theorem hints_shown_iff :
  forall ide,
    show_educational_hints ide <> []
    <-> exists editor tree,
          current_editor ide = Some editor
          /\ educational_hints ide = true
          /\ ast_parse (get_all editor) = Returned tree.
Proof.
  intros ide. unfold show_educational_hints. split.
  - intros H.
    destruct (current_editor ide) as [editor|]; [|now elim H].
    destruct (educational_hints ide); [|now elim H].
    unfold hints_for in H.
    destruct (ast_parse (get_all editor)) as [tree|e] eqn:E; [|now elim H].
    now exists editor, tree.
  - intros (editor & tree & He & Hon & Hparse). rewrite He, Hon.
    rewrite (hints_for_shape _ _ tree Hparse).
    intros E. apply app_eq_nil in E. destruct E as [_ E].
    apply app_eq_nil in E. destruct E as [_ E]. discriminate.
Qed.

End CodeIntelligence.

(* ================================================================= *)
(** * The claims on the example texts and states *)

(** ** [analyze_code] *)

(** On the text [def f(:], which does not parse, [analyze_code] returns
    the empty dict. *)
Lemma analyze_code_invalid_witness :
  sample_parse src_broken = Raised SyntaxError
  /\ exists metrics,
      analyze_code sample_parse sample_cleandoc src_broken = Returned metrics
      /\ metrics = []
      /\ (forall key, dict_get metrics key = None)
      /\ (forall key, dict_get_default metrics key 0 = 0).
Proof.
  assert (H : sample_parse src_broken = Raised SyntaxError)
    by (vm_compute; reflexivity).
  split; [exact H|].
  exact (analyze_code_invalid sample_parse sample_cleandoc src_broken
           SyntaxError H).
Defined.

(** C2 as stated fails: on the text [def f(:] no record with the seven
    counts at zero comes back; the dict returned has no count under
    ["loc"] at all. *)
Lemma invalid_source_has_no_counts :
  sample_parse src_broken = Raised SyntaxError
  /\ forall metrics,
      analyze_code sample_parse sample_cleandoc src_broken = Returned metrics ->
      dict_get metrics "loc" = None /\ ~ all_counts_zero metrics.
Proof.
  split; [vm_compute; reflexivity|].
  intros metrics H. vm_compute in H. injection H as <-.
  split; [reflexivity|].
  intros Hzero. specialize (Hzero "loc" (or_introl eq_refl)).
  discriminate.
Qed.

(** On the text [x = 1] with its final newline: one line. *)
Lemma loc_counts_splitlines_witness :
  sample_parse src_assign = Returned tree_assign
  /\ exists metrics,
      analyze_code sample_parse sample_cleandoc src_assign = Returned metrics
      /\ dict_get metrics "loc"
         = Some (Z.of_nat (List.length (splitlines src_assign)))
      /\ (newline_only src_assign = true ->
          dict_get metrics "loc"
          = Some (Z.of_nat (List.length (split_nl src_assign))
                  - (if ends_line src_assign then 1 else 0))).
Proof.
  assert (H : sample_parse src_assign = Returned tree_assign)
    by (vm_compute; reflexivity).
  split; [exact H|].
  exact (loc_counts_splitlines sample_parse sample_cleandoc src_assign
           tree_assign H).
Defined.

(** C3 as stated fails: the text [x = 1] with its final newline parses
    and counts one line, while splitting it on the newline character
    gives two pieces, [x = 1] and the empty string. *)
Lemma loc_is_not_split_on_newline :
  sample_parse src_assign = Returned tree_assign
  /\ split_nl src_assign = ["x = 1"; EmptyString]
  /\ exists metrics,
      analyze_code sample_parse sample_cleandoc src_assign = Returned metrics
      /\ dict_get metrics "loc" = Some 1
      /\ dict_get metrics "loc"
         <> Some (Z.of_nat (List.length (split_nl src_assign))).
Proof.
  split; [vm_compute; reflexivity|].
  split; [vm_compute; reflexivity|].
  eexists. split; [vm_compute; reflexivity|].
  split; [reflexivity|]. vm_compute. discriminate.
Qed.

(** On a module with a docstring, a documented function and a class
    without docstring: two docstrings, one function, one class. *)
Lemma docstrings_bounded_witness :
  sample_parse src_documented = Returned tree_documented
  /\ module_shaped tree_documented = true
  /\ exists metrics docstrings functions classes,
      analyze_code sample_parse sample_cleandoc src_documented
      = Returned metrics
      /\ dict_get metrics "docstrings" = Some docstrings
      /\ dict_get metrics "functions" = Some functions
      /\ dict_get metrics "classes" = Some classes
      /\ docstrings = count (has_docstring sample_cleandoc)
                            (walk tree_documented)
      /\ docstrings <= functions + classes + 1.
Proof.
  assert (H : sample_parse src_documented = Returned tree_documented)
    by (vm_compute; reflexivity).
  assert (Hshape : module_shaped tree_documented = true)
    by (vm_compute; reflexivity).
  split; [exact H|]. split; [exact Hshape|].
  exact (docstrings_bounded sample_parse sample_cleandoc src_documented
           tree_documented H Hshape).
Defined.

(** The tree of the guarded function is the tree of the plain one with
    the conditional put into the body of [f]. *)
Lemma guarded_adds_statement :
  add_statement if_node tree_return tree_guarded.
Proof.
  apply (add_below if_node Module [] "body" [] _ _ [] [("type_ignores", [])]).
  apply (add_here if_node FunctionDef
           [("args", [arguments_node [Node (OtherNode "arg") []]])]
           [] [return_node] [("decorator_list", [])]).
  - reflexivity.
  - cbn. intros [H|[]]. discriminate.
Defined.

(** Putting [if x: pass] into the body of [f]: the complexity goes from
    0 to 1. *)
Lemma complexity_monotone_witness :
  sample_parse src_return = Returned tree_return
  /\ sample_parse src_guarded = Returned tree_guarded
  /\ add_statement if_node tree_return tree_guarded
  /\ is_branching if_node = true
  /\ statement_shaped if_node = true
  /\ exists metrics metrics' complexity complexity',
      analyze_code sample_parse sample_cleandoc src_return = Returned metrics
      /\ analyze_code sample_parse sample_cleandoc src_guarded
         = Returned metrics'
      /\ dict_get metrics "complexity" = Some complexity
      /\ dict_get metrics' "complexity" = Some complexity'
      /\ complexity <= complexity'.
Proof.
  assert (H : sample_parse src_return = Returned tree_return)
    by (vm_compute; reflexivity).
  assert (H' : sample_parse src_guarded = Returned tree_guarded)
    by (vm_compute; reflexivity).
  assert (Hb : is_branching if_node = true) by reflexivity.
  assert (Hs : statement_shaped if_node = true) by reflexivity.
  repeat (split; [assumption || exact guarded_adds_statement|]).
  exact (complexity_monotone sample_parse sample_cleandoc src_return
           src_guarded tree_return tree_guarded if_node H H'
           guarded_adds_statement Hb Hs).
Defined.

Example complexity_of_examples :
  analyze_code sample_parse sample_cleandoc src_return
  = Returned [("loc", 2); ("functions", 1); ("classes", 0); ("imports", 0);
              ("comments", 0); ("docstrings", 0); ("complexity", 0)]
  /\ analyze_code sample_parse sample_cleandoc src_guarded
     = Returned [("loc", 4); ("functions", 1); ("classes", 0); ("imports", 0);
                 ("comments", 0); ("docstrings", 0); ("complexity", 1)].
Proof. split; vm_compute; reflexivity. Qed.

(** ** [show_educational_hints] *)

(** On the line [def foo():]: the function tips, and no other
    line-shape hint. *)
Lemma one_line_shape_hint_witness :
  sample_parse src_foo = Returned tree_foo
  /\ exists rest,
      hints_for sample_parse src_foo "def foo():"
      = first_match line_shape_rules "def foo():" ++ rest
      /\ filter is_line_shape_hint rest = []
      /\ filter is_line_shape_hint (hints_for sample_parse src_foo "def foo():")
         = first_match line_shape_rules "def foo():"
      /\ (List.length
            (filter is_line_shape_hint
                    (hints_for sample_parse src_foo "def foo():")) <= 1)%nat.
Proof.
  assert (H : sample_parse src_foo = Returned tree_foo)
    by (vm_compute; reflexivity).
  split; [exact H|].
  exact (one_line_shape_hint sample_parse src_foo "def foo():" tree_foo H).
Defined.

Example hints_for_def_foo :
  hints_for sample_parse src_foo "def foo():" = [FUNCTION_TIPS; BEST_PRACTICES]
  /\ first_match line_shape_rules "def foo():" = [FUNCTION_TIPS].
Proof. split; vm_compute; reflexivity. Qed.

(** The line [x = foo(1)] matches the assignment rule and the call rule;
    the assignment rule comes first and is the one that speaks. *)
Example hints_for_assignment_of_call :
  contains "(" "x = foo(1)" = true
  /\ first_match line_shape_rules "x = foo(1)" = [VARIABLE_TIPS].
Proof. split; vm_compute; reflexivity. Qed.

(** On a function of 21 statements, with the caret on its first line:
    the function tips, then one complexity hint for the one offending
    function, then the best practices. *)
Lemma structural_hints_in_order_witness :
  sample_parse src_big = Returned tree_big
  /\ line_shape [] "def big():" = [FUNCTION_TIPS]
  /\ filter offending (preorder tree_big)
     = [function_node [] (repeat pass_node 21)]
  /\ hints_for sample_parse src_big "def big():"
     = [FUNCTION_TIPS; COMPLEXITY_TIPS; BEST_PRACTICES]
  /\ hints_for sample_parse src_big "def big():"
     = line_shape [] "def big():"
       ++ map (fun _ => COMPLEXITY_TIPS) (filter offending (preorder tree_big))
       ++ [BEST_PRACTICES].
Proof.
  assert (H : sample_parse src_big = Returned tree_big)
    by (vm_compute; reflexivity).
  split; [exact H|].
  split; [vm_compute; reflexivity|].
  split; [vm_compute; reflexivity|].
  split; [vm_compute; reflexivity|].
  exact (proj1 (structural_hints_in_order sample_parse src_big "def big():"
                  tree_big H)).
Defined.

(** C5, as the specification states it, fails on a function written
    with [async def]: the text parses, its one function definition has
    21 statements, and the hints hold no complexity hint. *)
Lemma async_function_gets_no_hint :
  sample_parse src_async = Returned tree_async
  /\ module_shaped tree_async = true
  /\ List.length (filter long_function_definition (preorder tree_async))
     = 1%nat
  /\ line_shape [] "    pass" = []
  /\ hints_for sample_parse src_async "    pass" = [BEST_PRACTICES]
  /\ hints_for sample_parse src_async "    pass"
     <> line_shape [] "    pass"
        ++ map (fun _ => COMPLEXITY_TIPS)
             (filter long_function_definition (preorder tree_async))
        ++ [BEST_PRACTICES].
Proof.
  split; [vm_compute; reflexivity|].
  split; [vm_compute; reflexivity|].
  split; [vm_compute; reflexivity|].
  split; [vm_compute; reflexivity|].
  split; [vm_compute; reflexivity|].
  vm_compute. discriminate.
Qed.

Example hints_for_big :
  hints_for sample_parse src_big "    pass" = [COMPLEXITY_TIPS; BEST_PRACTICES]
  /\ hints_for sample_parse src_big "def big():"
     = [FUNCTION_TIPS; COMPLEXITY_TIPS; BEST_PRACTICES].
Proof. split; vm_compute; reflexivity. Qed.

(** On the text [x = 1]: the hints end with the best practices. *)
Lemma best_practices_last_witness :
  sample_parse src_assign = Returned tree_assign
  /\ hints_for sample_parse src_assign "x = 1" <> []
  /\ last (hints_for sample_parse src_assign "x = 1") EmptyString
     = BEST_PRACTICES.
Proof.
  assert (H : sample_parse src_assign = Returned tree_assign)
    by (vm_compute; reflexivity).
  split; [exact H|].
  exact (best_practices_last sample_parse src_assign "x = 1" tree_assign H).
Defined.

(** ** The completion session *)

Example show_completions_example :
  show_completions sample_provider ide_start = ide_opened.
Proof. vm_compute. reflexivity. Qed.

(** With the three candidates for the example text: two calls with [Down]
    reach the last entry, a third stays there. *)
Lemma navigation_clamped_witness :
  current_editor ide_start = Some editor_start
  /\ sample_provider (get_all editor_start) 2 13 = Returned sample_candidates
  /\ sample_candidates <> []
  /\ candidate_count ide_opened = Some 3
  /\ selected_index ide_opened = Some 0
  /\ (forall st i keysym d,
         candidate_count st = Some 3 ->
         selected_index st = Some i ->
         0 <= i < 3 ->
         move_of keysym = Some d ->
         exists st',
           _navigate_completions keysym st = Returned st'
           /\ candidate_count st' = Some 3
           /\ selected_index st' = Some (clamp 3 (i + d)))
  /\ (exists last_entry,
         navigate_times "Down" 2 ide_opened = Returned last_entry
         /\ selected_index last_entry = Some 2
         /\ exists after,
             _navigate_completions "Down" last_entry = Returned after
             /\ selected_index after = Some 2).
Proof.
  assert (He : current_editor ide_start = Some editor_start) by reflexivity.
  assert (Hj : sample_provider (get_all editor_start)
                 (fst (tw_insert editor_start)) (snd (tw_insert editor_start))
               = Returned sample_candidates) by (vm_compute; reflexivity).
  assert (Hne : sample_candidates <> []) by discriminate.
  split; [exact He|]. split; [exact Hj|]. split; [exact Hne|].
  exact (navigation_clamped sample_provider ide_start editor_start
           sample_candidates He Hj Hne).
Defined.

Example page_down_is_clamped :
  (st <- _navigate_completions "Next" ide_opened ;; Returned (selected_index st))
  = Returned (Some 2)
  /\ (st <- _navigate_completions "Prior" ide_opened ;;
      Returned (selected_index st))
     = Returned (Some 0).
Proof. split; vm_compute; reflexivity. Qed.

(** C1.  The selected completion is not what ends up in the line.  In
    the editor with [compute_value = 1] and [result = comp], the caret
    after [comp] at line 2, column 13, the provider gives [compile],
    [complex] and [compute_value]; with [compute_value] selected (two
    times [Down]), [insert_completion] finds the word start at column
    9, deletes [comp] and inserts [completion.complete], which for a
    completion of [jedi] is the rest of the word, [ute_value]: the line
    becomes [result = ute_value].  The span with the name of the
    candidate as its text gives [result = compute_value]. *)
Theorem accept_inserts_rest_of_word :
  sample_provider (get_all editor_start) 2 13 = Returned sample_candidates
  /\ exists selected ide' editor',
      navigate_times "Down" 2 (show_completions sample_provider ide_start)
      = Returned selected
      /\ populated selected = true
      /\ selected_index selected = Some 2
      /\ list_index (current_completions selected) 2
         = Returned (candidate 4 "compute_value" "statement")
      /\ current_editor selected = Some editor_start
      /\ get_line editor_start 2 = "result = comp"
      /\ find_word_start (get_line_upto editor_start (2%nat, 13%nat)) = 9%nat
      /\ comp_complete (candidate 4 "compute_value" "statement") = "ute_value"
      /\ insert_completion selected = Returned ide'
      /\ current_editor ide' = Some editor'
      /\ tw_lines editor' = ["compute_value = 1"; "result = ute_value"]
      /\ apply_span (tw_lines editor_start)
           {| span_line := 2; startColumn := 9; endColumn := 13;
              insertText := "compute_value" |}
         = ["compute_value = 1"; "result = compute_value"]
      /\ tw_lines editor'
         <> apply_span (tw_lines editor_start)
              {| span_line := 2; startColumn := 9; endColumn := 13;
                 insertText := "compute_value" |}.
Proof.
  split; [vm_compute; reflexivity|].
  eexists. eexists. eexists.
  split; [vm_compute; reflexivity|].
  split; [vm_compute; reflexivity|].
  split; [vm_compute; reflexivity|].
  split; [vm_compute; reflexivity|].
  split; [vm_compute; reflexivity|].
  split; [vm_compute; reflexivity|].
  split; [vm_compute; reflexivity|].
  split; [vm_compute; reflexivity|].
  split; [vm_compute; reflexivity|].
  split; [vm_compute; reflexivity|].
  split; [vm_compute; reflexivity|].
  split; [vm_compute; reflexivity|].
  vm_compute. discriminate.
Qed.

(** The same with the first candidate, which is selected when the popup
    opens: [result = ile], not [result = compile]. *)
Example accept_first_candidate :
  exists ide' editor',
    insert_completion ide_opened = Returned ide'
    /\ current_editor ide' = Some editor'
    /\ tw_lines editor' = ["compute_value = 1"; "result = ile"].
Proof.
  eexists. eexists.
  split; [vm_compute; reflexivity|].
  split; vm_compute; reflexivity.
Qed.

(** The program keeps no anchor: the columns replaced end at the caret
    of the moment of the accept.  With the popup open and the caret put
    after [result] (a click in the editor), the accept replaces the
    columns 0 to 6 of the line. *)
Example accept_after_caret_moved :
  let moved :=
    set_current_editor ide_opened
      {| tw_lines := sample_lines; tw_insert := (2%nat, 6%nat) |} in
  exists ide' editor',
    insert_completion moved = Returned ide'
    /\ current_editor ide' = Some editor'
    /\ tw_lines editor' = ["compute_value = 1"; "ile = comp"].
Proof.
  eexists. eexists.
  split; [vm_compute; reflexivity|].
  split; vm_compute; reflexivity.
Qed.

(** The state before any completion was asked for is not [Populated];
    the state after a completion was inserted is not either. *)
Lemma accept_outside_populated_witness :
  populated ide_start = false
  /\ insert_completion ide_start = Returned ide_start
  /\ populated ide_opened = true
  /\ completion_window ide_opened = completion_list ide_opened
  /\ exists ide',
      insert_completion ide_opened = Returned ide'
      /\ populated ide' = false
      /\ insert_completion ide' = Raised TclError.
Proof.
  assert (H0 : populated ide_start = false) by reflexivity.
  assert (H1 : populated ide_opened = true) by (vm_compute; reflexivity).
  assert (Hw : completion_window ide_opened = completion_list ide_opened)
    by (vm_compute; reflexivity).
  split; [exact H0|].
  split; [exact (proj1 accept_outside_populated ide_start H0)|].
  split; [exact H1|]. split; [exact Hw|].
  eexists. split; [vm_compute; reflexivity|].
  apply (proj2 accept_outside_populated ide_opened _ H1 Hw).
  vm_compute; reflexivity.
Defined.

(** C8 as stated fails: in state [Empty], which is not [Populated],
    [insert_completion] returns without an error and leaves the state as
    it is. *)
Lemma accept_in_empty_state_returns :
  populated ide_start = false
  /\ completion_list ide_start = None
  /\ insert_completion ide_start = Returned ide_start
  /\ ~ (exists e, insert_completion ide_start = Raised e).
Proof.
  split; [reflexivity|]. split; [reflexivity|]. split; [reflexivity|].
  intros [e H]. discriminate.
Qed.

(** After [<Escape>] the popup is closed; [insert_completion] then fails
    in Tk as it does after an accept. *)
Example accept_after_escape :
  (closed <- on_escape ide_opened ;; insert_completion closed)
  = Raised TclError.
Proof. vm_compute. reflexivity. Qed.

(* ================================================================= *)
(** * The further properties on the example texts and states *)

(** ** Metrics of the text of an editor *)

Lemma editor_foo_text : get_all editor_foo = src_foo.
Proof. reflexivity. Qed.

Lemma loc_is_editor_lines_witness :
  sample_parse (get_all editor_foo) = Returned tree_foo
  /\ tw_lines editor_foo <> []
  /\ Forall (fun line => has_linebreak line = false) (tw_lines editor_foo)
  /\ exists metrics,
      analyze_code sample_parse sample_cleandoc (get_all editor_foo)
      = Returned metrics
      /\ dict_get metrics "loc" = Some 2.
Proof.
  assert (H : sample_parse (get_all editor_foo) = Returned tree_foo)
    by (vm_compute; reflexivity).
  assert (Hne : tw_lines editor_foo <> []) by discriminate.
  assert (Hall : Forall (fun line => has_linebreak line = false)
                        (tw_lines editor_foo))
    by (repeat constructor).
  split; [exact H|]. split; [exact Hne|]. split; [exact Hall|].
  exact (loc_is_editor_lines sample_parse sample_cleandoc editor_foo tree_foo
           H Hne Hall).
Defined.

Lemma comments_at_most_loc_witness :
  sample_parse src_documented = Returned tree_documented
  /\ exists metrics comments loc,
      analyze_code sample_parse sample_cleandoc src_documented
      = Returned metrics
      /\ dict_get metrics "comments" = Some comments
      /\ dict_get metrics "loc" = Some loc
      /\ 0 <= comments <= loc.
Proof.
  assert (H : sample_parse src_documented = Returned tree_documented)
    by (vm_compute; reflexivity).
  split; [exact H|].
  exact (comments_at_most_loc sample_parse sample_cleandoc src_documented
           tree_documented H).
Defined.

Lemma counts_nonnegative_witness :
  sample_parse src_guarded = Returned tree_guarded
  /\ module_shaped tree_guarded = true
  /\ exists metrics,
      analyze_code sample_parse sample_cleandoc src_guarded = Returned metrics
      /\ map fst metrics = metric_keys
      /\ forall key value, dict_get metrics key = Some value -> 0 <= value.
Proof.
  assert (H : sample_parse src_guarded = Returned tree_guarded)
    by (vm_compute; reflexivity).
  assert (Hshape : module_shaped tree_guarded = true) by reflexivity.
  split; [exact H|]. split; [exact Hshape|].
  exact (counts_nonnegative sample_parse sample_cleandoc src_guarded
           tree_guarded H Hshape).
Defined.

Lemma update_metrics_unparsable_witness :
  current_editor ide_broken = Some editor_broken
  /\ sample_parse (get_all editor_broken) = Raised SyntaxError
  /\ update_metrics sample_parse sample_cleandoc ide_broken
     = Some (Returned {| panel_rows := [];
                         panel_suggestions := [];
                         panel_chart := Raised ValueError |}).
Proof.
  assert (He : current_editor ide_broken = Some editor_broken) by reflexivity.
  assert (H : sample_parse (get_all editor_broken) = Raised SyntaxError)
    by (vm_compute; reflexivity).
  split; [exact He|]. split; [exact H|].
  exact (update_metrics_unparsable sample_parse sample_cleandoc ide_broken
           editor_broken SyntaxError He H).
Defined.


Lemma large_file_suggestion_witness :
  current_editor ide_foo = Some editor_foo
  /\ sample_parse (get_all editor_foo) = Returned tree_foo
  /\ tw_lines editor_foo <> []
  /\ Forall (fun line => has_linebreak line = false) (tw_lines editor_foo)
  /\ exists panel,
      update_metrics sample_parse sample_cleandoc ide_foo
      = Some (Returned panel)
      /\ (In LARGE_FILE (panel_suggestions panel)
          <-> (300 < List.length (tw_lines editor_foo))%nat).
Proof.
  assert (He : current_editor ide_foo = Some editor_foo) by reflexivity.
  assert (H : sample_parse (get_all editor_foo) = Returned tree_foo)
    by (vm_compute; reflexivity).
  assert (Hne : tw_lines editor_foo <> []) by discriminate.
  assert (Hall : Forall (fun line => has_linebreak line = false)
                        (tw_lines editor_foo))
    by (repeat constructor).
  split; [exact He|]. split; [exact H|]. split; [exact Hne|].
  split; [exact Hall|].
  exact (large_file_suggestion sample_parse sample_cleandoc ide_foo editor_foo
           tree_foo He H Hne Hall).
Defined.

Example update_metrics_of_foo :
  update_metrics sample_parse sample_cleandoc ide_foo
  = Some (Returned
            {| panel_rows :=
                 [("loc", 2); ("functions", 1); ("classes", 0); ("imports", 0);
                  ("comments", 0); ("docstrings", 0); ("complexity", 0)];
               panel_suggestions := [];
               panel_chart :=
                 Returned
                   [ {| bar_left := 30; bar_right := 70; bar_value := 2;
                        bar_scale := 2; bar_label := "loc" |};
                     {| bar_left := 80; bar_right := 120; bar_value := 1;
                        bar_scale := 2; bar_label := "func" |};
                     {| bar_left := 130; bar_right := 170; bar_value := 0;
                        bar_scale := 2; bar_label := "clas" |};
                     {| bar_left := 180; bar_right := 220; bar_value := 0;
                        bar_scale := 2; bar_label := "impo" |};
                     {| bar_left := 230; bar_right := 270; bar_value := 0;
                        bar_scale := 2; bar_label := "comm" |};
                     {| bar_left := 280; bar_right := 320; bar_value := 0;
                        bar_scale := 2; bar_label := "docs" |};
                     {| bar_left := 330; bar_right := 370; bar_value := 0;
                        bar_scale := 2; bar_label := "comp" |} ] |}).
Proof. vm_compute. reflexivity. Qed.

(** The empty text counts no line, so a chart of it alone would divide
    by zero; the text of an editor is never empty. *)
Example empty_metrics_chart :
  update_metrics_visualization
    [("loc", 0); ("functions", 0); ("classes", 0); ("imports", 0);
     ("comments", 0); ("docstrings", 0); ("complexity", 0)]
  = Raised (OtherException "ZeroDivisionError").
Proof. reflexivity. Qed.

(** ** The popup *)

Lemma ide_opened_invariant : session_invariant ide_opened.
Proof.
  intros ref p Hp Hlive. destruct ref as [|ref].
  - cbn in Hp. injection Hp as <-.
    split; [reflexivity|]. split; [reflexivity|]. split; [reflexivity|].
    exists 0. split; [reflexivity|]. cbn. lia.
  - cbn in Hp. destruct ref; discriminate.
Defined.

(** After [Down] and [<Return>] on the open popup, no popup is alive. *)
Lemma session_invariant_kept_witness :
  session_invariant ide_opened
  /\ session_invariant
       (run sample_provider [ListKey "Down"; ListReturn] ide_opened)
  /\ forall ref ref' p p',
      nth_error
        (widgets (run sample_provider [ListKey "Down"; ListReturn] ide_opened))
        ref = Some p ->
      nth_error
        (widgets (run sample_provider [ListKey "Down"; ListReturn] ide_opened))
        ref' = Some p' ->
      destroyed p = false ->
      destroyed p' = false ->
      ref = ref'.
Proof.
  split; [exact ide_opened_invariant|].
  exact (session_invariant_kept sample_provider [ListKey "Down"; ListReturn]
           ide_opened ide_opened_invariant).
Defined.

Example run_down_return :
  option_map tw_lines
    (current_editor
       (run sample_provider [ListKey "Down"; ListReturn] ide_opened))
  = Some ["compute_value = 1"; "result = lex"].
Proof. vm_compute. reflexivity. Qed.

Lemma accept_succeeds_when_populated_witness :
  session_invariant ide_opened
  /\ populated ide_opened = true
  /\ current_editor ide_opened = Some editor_start
  /\ exists i completion ide',
      selected_index ide_opened = Some i
      /\ nth_error (current_completions ide_opened) (Z.to_nat i)
         = Some completion
      /\ insert_completion ide_opened = Returned ide'
      /\ populated ide' = false
      /\ completion_window ide' = None
      /\ forall ref p,
          nth_error (widgets ide') ref = Some p -> destroyed p = true.
Proof.
  assert (Hpop : populated ide_opened = true) by reflexivity.
  assert (He : current_editor ide_opened = Some editor_start) by reflexivity.
  split; [exact ide_opened_invariant|]. split; [exact Hpop|].
  split; [exact He|].
  exact (accept_succeeds_when_populated ide_opened editor_start
           ide_opened_invariant Hpop He).
Defined.

Lemma navigate_round_trip_witness :
  candidate_count ide_opened = Some 3
  /\ selected_index ide_opened = Some 0
  /\ 0 <= 0 < 3
  /\ 0 < 3 - 1
  /\ exists st st',
      _navigate_completions "Down" ide_opened = Returned st
      /\ _navigate_completions "Up" st = Returned st'
      /\ selected_index st' = Some 0.
Proof.
  assert (Hn : candidate_count ide_opened = Some 3) by reflexivity.
  assert (Hi : selected_index ide_opened = Some 0) by reflexivity.
  assert (Hrange : 0 <= 0 < 3) by lia.
  assert (Hedge : 0 < 3 - 1) by lia.
  split; [exact Hn|]. split; [exact Hi|]. split; [exact Hrange|].
  split; [exact Hedge|].
  exact (proj1 (navigate_round_trip ide_opened 3 0 Hn Hi Hrange) Hedge).
Defined.

Lemma editor_start_valid : valid_caret editor_start.
Proof. unfold valid_caret. cbn. lia. Defined.

(** Asking for completions of [result = comp], one [Down], and the
    accept: the text of the second candidate, [complex], replaces
    [comp]. *)
Lemma request_navigate_accept_witness :
  current_editor ide_start = Some editor_start
  /\ valid_caret editor_start
  /\ sample_provider (get_all editor_start) 2 13 = Returned sample_candidates
  /\ sample_candidates <> []
  /\ exists completion st ide' editor',
      nth_error sample_candidates 1 = Some completion
      /\ navigate_times "Down" 1 (show_completions sample_provider ide_start)
         = Returned st
      /\ insert_completion st = Returned ide'
      /\ current_editor ide' = Some editor'
      /\ tw_lines editor'
         = apply_span sample_lines
             {| span_line := 2; startColumn := 9; endColumn := 13;
                insertText := comp_complete completion |}.
Proof.
  assert (He : current_editor ide_start = Some editor_start) by reflexivity.
  assert (Hj : sample_provider (get_all editor_start)
                 (fst (tw_insert editor_start)) (snd (tw_insert editor_start))
               = Returned sample_candidates) by (vm_compute; reflexivity).
  assert (Hne : sample_candidates <> []) by discriminate.
  split; [exact He|]. split; [exact editor_start_valid|].
  split; [exact Hj|]. split; [exact Hne|].
  exact (request_navigate_accept sample_provider ide_start editor_start
           sample_candidates 1 He editor_start_valid Hj Hne).
Defined.

(** The provider fails while the popup is open: the popup goes. *)
Lemma provider_failure_closes_witness :
  session_invariant ide_opened
  /\ current_editor ide_opened = Some editor_start
  /\ failing_provider (get_all editor_start) 2 13
     = Raised (OtherException "jedi")
  /\ populated (show_completions failing_provider ide_opened) = false
  /\ completion_window (show_completions failing_provider ide_opened) = None
  /\ current_editor (show_completions failing_provider ide_opened)
     = Some editor_start
  /\ forall ref p,
      nth_error (widgets (show_completions failing_provider ide_opened)) ref
      = Some p ->
      destroyed p = true.
Proof.
  assert (He : current_editor ide_opened = Some editor_start) by reflexivity.
  assert (Hj : failing_provider (get_all editor_start)
                 (fst (tw_insert editor_start)) (snd (tw_insert editor_start))
               = Raised (OtherException "jedi")) by reflexivity.
  split; [exact ide_opened_invariant|]. split; [exact He|].
  split; [exact Hj|].
  exact (provider_failure_closes failing_provider ide_opened editor_start
           (OtherException "jedi") ide_opened_invariant He Hj).
Defined.

(** With no candidates, by contrast, the open popup stays as it is. *)
Example no_candidates_keep_popup :
  show_completions (fun _ _ _ => Returned []) ide_opened = ide_opened.
Proof. reflexivity. Qed.

Lemma accept_moves_caret_witness :
  selected_index ide_opened = Some 0
  /\ list_index (current_completions ide_opened) 0
     = Returned (candidate 4 "compile" "function")
  /\ current_editor ide_opened = Some editor_start
  /\ valid_caret editor_start
  /\ contains (String nl EmptyString) "result = comp" = false
  /\ contains (String nl EmptyString) "ile" = false
  /\ exists ide' editor',
      insert_completion ide_opened = Returned ide'
      /\ current_editor ide' = Some editor'
      /\ tw_insert editor' = (2%nat, 12%nat)
      /\ get_line_upto editor' (tw_insert editor') = "result = ile".
Proof.
  assert (Hi : selected_index ide_opened = Some 0) by reflexivity.
  assert (Hc : list_index (current_completions ide_opened) 0
               = Returned (candidate 4 "compile" "function")) by reflexivity.
  assert (He : current_editor ide_opened = Some editor_start) by reflexivity.
  assert (Hold : contains (String nl EmptyString)
                   (line_at (tw_lines editor_start)
                      (fst (tw_insert editor_start))) = false)
    by reflexivity.
  assert (Htext : contains (String nl EmptyString)
                    (comp_complete (candidate 4 "compile" "function")) = false)
    by reflexivity.
  split; [exact Hi|]. split; [exact Hc|]. split; [exact He|].
  split; [exact editor_start_valid|]. split; [exact Hold|].
  split; [exact Htext|].
  exact (accept_moves_caret ide_opened editor_start 0
           (candidate 4 "compile" "function") Hi Hc He editor_start_valid Hold Htext).
Defined.

Lemma accept_keeps_word_start_witness :
  selected_index ide_opened = Some 0
  /\ list_index (current_completions ide_opened) 0
     = Returned (candidate 4 "compile" "function")
  /\ current_editor ide_opened = Some editor_start
  /\ valid_caret editor_start
  /\ contains (String nl EmptyString) "result = comp" = false
  /\ all_word_chars "ile" = true
  /\ exists ide' editor',
      insert_completion ide_opened = Returned ide'
      /\ current_editor ide' = Some editor'
      /\ find_word_start (get_line_upto editor' (tw_insert editor')) = 9%nat.
Proof.
  assert (Hi : selected_index ide_opened = Some 0) by reflexivity.
  assert (Hc : list_index (current_completions ide_opened) 0
               = Returned (candidate 4 "compile" "function")) by reflexivity.
  assert (He : current_editor ide_opened = Some editor_start) by reflexivity.
  assert (Hold : contains (String nl EmptyString)
                   (line_at (tw_lines editor_start)
                      (fst (tw_insert editor_start))) = false)
    by reflexivity.
  assert (Htext : all_word_chars (comp_complete (candidate 4 "compile" "function"))
                  = true) by reflexivity.
  split; [exact Hi|]. split; [exact Hc|]. split; [exact He|].
  split; [exact editor_start_valid|]. split; [exact Hold|].
  split; [exact Htext|].
  exact (accept_keeps_word_start ide_opened editor_start 0
           (candidate 4 "compile" "function") Hi Hc He editor_start_valid Hold Htext).
Defined.

(** A tab at the end of [result = comp]: four spaces. *)
Lemma handle_tab_inserts_spaces_witness :
  valid_caret editor_start
  /\ contains (String nl EmptyString) "result = comp" = false
  /\ tw_lines (handle_tab 4 editor_start)
     = ["compute_value = 1"; "result = comp    "]
  /\ tw_insert (handle_tab 4 editor_start) = (2%nat, 17%nat).
Proof.
  assert (Hold : contains (String nl EmptyString)
                   (line_at (tw_lines editor_start)
                      (fst (tw_insert editor_start))) = false)
    by reflexivity.
  split; [exact editor_start_valid|]. split; [exact Hold|].
  destruct (handle_tab_inserts_spaces 4 editor_start editor_start_valid Hold)
    as (Hlines & Hcaret & _).
  split; [exact Hlines | exact Hcaret].
Defined.

(** ** The terminal *)

Lemma blank_command_ignored_witness :
  all_space (term_input terminal_blank) = true
  /\ execute_command sample_process sample_message terminal_blank
     = terminal_blank.
Proof.
  assert (H : all_space (term_input terminal_blank) = true) by reflexivity.
  split; [exact H|].
  exact (blank_command_ignored sample_process sample_message terminal_blank H).
Defined.

Lemma execute_then_up_recalls_witness :
  strip (term_input terminal_typed) <> EmptyString
  /\ term_history
       (execute_command sample_process sample_message terminal_typed)
     = ["ls"; "python main.py"]
  /\ exists t2,
      history_up (execute_command sample_process sample_message terminal_typed)
      = (t2, None)
      /\ term_input t2 = "python main.py"
      /\ history_down t2 = (t2, None).
Proof.
  assert (H : strip (term_input terminal_typed) <> EmptyString)
    by (vm_compute; discriminate).
  split; [exact H|].
  destruct (execute_then_up_recalls sample_process sample_message
              terminal_typed H)
    as (Hhistory & _ & _ & t2 & Hup & Hinput & _ & Hdown).
  split; [exact Hhistory|].
  exists t2. split; [exact Hup|]. split; [exact Hinput | exact Hdown].
Defined.

Example execute_output :
  term_output (execute_command sample_process sample_message terminal_typed)
  = [(String nl ("$ python main.py" ++ String nl EmptyString)%string, None);
     ("done", None)].
Proof. vm_compute. reflexivity. Qed.

Lemma history_index_in_range_witness :
  0 <= term_history_index terminal_three
    <= Z.of_nat (List.length (term_history terminal_three))
  /\ (exists t',
         history_up terminal_three = (t', None)
         /\ term_history t' = term_history terminal_three
         /\ 0 <= term_history_index t'
            <= Z.of_nat (List.length (term_history t')))
  /\ (exists t',
         history_down terminal_three = (t', None)
         /\ term_history t' = term_history terminal_three
         /\ 0 <= term_history_index t'
            <= Z.of_nat (List.length (term_history t'))).
Proof.
  assert (H : 0 <= term_history_index terminal_three
              <= Z.of_nat (List.length (term_history terminal_three)))
    by (cbn; lia).
  split; [exact H|].
  exact (proj2 (history_index_in_range sample_process sample_message
                  terminal_three H)).
Defined.

(** Two presses of [<Up>] after three commands show the second one;
    five presses stop at the first. *)
Lemma history_up_walks_back_witness :
  1 <= term_history_index terminal_three
    <= Z.of_nat (List.length (term_history terminal_three))
  /\ (1 <= 2)%nat
  /\ term_history_index (history_up_times 2 terminal_three) = 1
  /\ term_input (history_up_times 2 terminal_three) = "pwd"
  /\ term_input (history_up_times 5 terminal_three) = "ls".
Proof.
  assert (H : 1 <= term_history_index terminal_three
              <= Z.of_nat (List.length (term_history terminal_three)))
    by (cbn; lia).
  assert (Htimes : (1 <= 2)%nat) by lia.
  split; [exact H|]. split; [exact Htimes|].
  destruct (history_up_walks_back 2 terminal_three H Htimes)
    as (_ & Hindex & _).
  split; [exact Hindex|]. split; reflexivity.
Defined.
